(** * Quickprop (quickprop.ipynb): a shallow embedding and its properties

    The notebook defines [calc_gradient], [grad_descent_step],
    [cond_add_slope], [clip_at_max_growth], [quickprop_step] and the driver
    [quickprop].  They are embedded here as follows.

    - A tensor entry is a [num]: an exact rational (canonical, [Qc]) or one
      of the IEEE special values +inf, -inf, NaN.  The code computes in
      binary floating point; rounding, overflow and underflow are not
      modelled (finite arithmetic is exact).  The special values follow
      IEEE 754 as torch and numpy implement it: x/0 is an infinity (NaN for
      0/0), 0*inf is NaN, NaN propagates through arithmetic, [np.sign],
      [np.clip], and every comparison with NaN is false.  Signed zeros are
      not modelled; no result below depends on the sign of an infinity.
    - A tensor is a [vec], the list of its entries; its shape is not
      kept.  The tensors of a call are taken to have the shape of the
      parameters, so that equal length is equal shape and operations go
      entry by entry, or to have a single entry, which numpy and torch
      repeat.  For operands that differ otherwise the libraries broadcast
      per axis or raise, depending on the shapes; the model stops there
      with [OutsideModel], and no theorem rests on that outcome.
    - Exceptions and the calls made are threaded by a small monad [M]: a
      computation maps the trace of calls so far to a result or an exception
      and the extended trace.
    - The forward pass and the automatic differentiation behind
      [calc_gradient] are a section variable [provider]. *)

From Stdlib Require Import ZArith QArith Qcanon Qcabs Qround List Lia Bool.
From ExtLib Require Import Structures.Monad Data.Monads.EitherMonad.
Import ListNotations.
Import MonadNotation.
Local Open Scope monad_scope.

(** ** Tensor entries *)

Inductive num : Type :=
| Fin (q : Qc)
| PInf
| NInf
| NaN.

Definition num_of_Z (z : Z) : num := Fin (Q2Qc (inject_Z z)).

Definition zero : num := Fin 0%Qc.
Definition one : num := Fin 1%Qc.

(** Sign of a rational, as a comparison with zero. *)
Definition Qcsgn (q : Qc) : comparison := (q ?= 0)%Qc.

Definition is_nan (a : num) : bool :=
  match a with NaN => true | _ => false end.

Definition is_finite (a : num) : bool :=
  match a with Fin _ => true | _ => false end.

Definition nopp (a : num) : num :=
  match a with
  | Fin x => Fin (- x)%Qc
  | PInf => NInf
  | NInf => PInf
  | NaN => NaN
  end.

Definition nadd (a b : num) : num :=
  match a, b with
  | NaN, _ | _, NaN => NaN
  | Fin x, Fin y => Fin (x + y)%Qc
  | PInf, NInf | NInf, PInf => NaN
  | PInf, _ | _, PInf => PInf
  | NInf, _ | _, NInf => NInf
  end.

Definition nsub (a b : num) : num := nadd a (nopp b).

(** An infinity scaled by a finite factor of the given sign. *)
Definition scale_inf (s : comparison) (pos : bool) : num :=
  match s with
  | Eq => NaN
  | Gt => if pos then PInf else NInf
  | Lt => if pos then NInf else PInf
  end.

Definition nmul (a b : num) : num :=
  match a, b with
  | NaN, _ | _, NaN => NaN
  | Fin x, Fin y => Fin (x * y)%Qc
  | Fin x, PInf | PInf, Fin x => scale_inf (Qcsgn x) true
  | Fin x, NInf | NInf, Fin x => scale_inf (Qcsgn x) false
  | PInf, PInf | NInf, NInf => PInf
  | PInf, NInf | NInf, PInf => NInf
  end.

(** Division never raises on tensors: a zero divisor gives an infinity of
    the dividend's sign, or NaN for 0/0. *)
Definition ndiv (a b : num) : num :=
  match a, b with
  | NaN, _ | _, NaN => NaN
  | Fin x, Fin y =>
      match Qcsgn y with
      | Eq => scale_inf (Qcsgn x) true
      | _ => Fin (x / y)%Qc
      end
  | Fin _, _ => zero
  | PInf, Fin y => match Qcsgn y with Lt => NInf | _ => PInf end
  | NInf, Fin y => match Qcsgn y with Lt => PInf | _ => NInf end
  | _, _ => NaN
  end.

Definition nabs (a : num) : num :=
  match a with
  | Fin x => Fin (Qcabs x)
  | PInf | NInf => PInf
  | NaN => NaN
  end.

(** [np.sign]: -1, 0 or 1, and NaN for NaN. *)
Definition nsign (a : num) : num :=
  match a with
  | Fin x =>
      match Qcsgn x with
      | Lt => Fin (- (1))%Qc
      | Eq => zero
      | Gt => one
      end
  | PInf => one
  | NInf => Fin (- (1))%Qc
  | NaN => NaN
  end.

(** [np.ceil]. *)
Definition nceil (a : num) : num :=
  match a with
  | Fin x => num_of_Z (Qceiling x)
  | _ => a
  end.

(** [a <= b] and [a > b] as IEEE comparisons: false when NaN is involved. *)
Definition nleb (a b : num) : bool :=
  match a, b with
  | NaN, _ | _, NaN => false
  | NInf, _ | _, PInf => true
  | Fin x, Fin y => match (x ?= y)%Qc with Gt => false | _ => true end
  | _, _ => false
  end.

Definition ngtb (a b : num) : bool :=
  match a, b with
  | NaN, _ | _, NaN => false
  | Fin x, Fin y => match (x ?= y)%Qc with Gt => true | _ => false end
  | PInf, PInf | NInf, _ | _, PInf => false
  | _, _ => true
  end.

(** [np.maximum] and [np.minimum]: NaN propagates. *)
Definition nmax (a b : num) : num :=
  match a, b with
  | NaN, _ | _, NaN => NaN
  | _, _ => if nleb a b then b else a
  end.

Definition nmin (a b : num) : num :=
  match a, b with
  | NaN, _ | _, NaN => NaN
  | _, _ => if nleb a b then a else b
  end.

(** [np.clip(a, a_min=lo, a_max=hi)] is [minimum(maximum(a, lo), hi)]. *)
Definition nclip (a lo hi : num) : num := nmin (nmax a lo) hi.

(** Decidable equality of entries, through the underlying fractions. *)
Definition num_eqb (a b : num) : bool :=
  match a, b with
  | Fin x, Fin y => match (x ?= y)%Qc with Eq => true | _ => false end
  | PInf, PInf | NInf, NInf | NaN, NaN => true
  | _, _ => false
  end.

(** ** Tensors, exceptions and elementwise operations *)

Definition vec : Type := list num.

Inductive exn : Type :=
| OutsideModel        (* operands of different sizes, neither a single entry:
                         broadcast per axis or refused by the library,
                         which the entries alone do not decide *)
| AttributeError      (* 'list' object has no attribute 'detach' *)
| ZeroDivisionError.  (* Python scalar division by zero *)

Definition res : Type -> Type := sum exn.

Fixpoint map2 {A B C : Type} (f : A -> B -> C) (a : list A) (b : list B)
  : list C :=
  match a, b with
  | x :: a', y :: b' => f x y :: map2 f a' b'
  | _, _ => []
  end.

(** A binary elementwise operation: same shape, or one operand a single
    entry. *)
Definition broadcast (f : num -> num -> num) (a b : vec) : res vec :=
  if Nat.eqb (length a) (length b) then inr (map2 f a b)
  else
    match a, b with
    | [x], _ => inr (map (f x) b)
    | _, [y] => inr (map (fun x => f x y) a)
    | _, _ => inl OutsideModel
    end.

Definition t_add : vec -> vec -> res vec := broadcast nadd.
Definition t_sub : vec -> vec -> res vec := broadcast nsub.
Definition t_mul : vec -> vec -> res vec := broadcast nmul.
Definition t_div : vec -> vec -> res vec := broadcast ndiv.
Definition np_maximum : vec -> vec -> res vec := broadcast nmax.
Definition np_minimum : vec -> vec -> res vec := broadcast nmin.

(** Operations with a Python scalar on one side, and the unary ones. *)
Definition smul (c : num) (a : vec) : vec := map (nmul c) a.
Definition muls (a : vec) (c : num) : vec := map (fun x => nmul x c) a.
Definition rsub (c : num) (a : vec) : vec := map (nsub c) a.
Definition sdiv (a : vec) (c : num) : vec := map (fun x => ndiv x c) a.
Definition t_neg (a : vec) : vec := map nopp a.
Definition np_abs (a : vec) : vec := map nabs a.
Definition np_sign (a : vec) : vec := map nsign a.
Definition np_ceil (a : vec) : vec := map nceil a.

(** [np.clip] with scalar bounds, and with tensor bounds. *)
Definition np_clip_s (a : vec) (lo hi : num) : vec :=
  map (fun x => nclip x lo hi) a.

Definition np_clip (a lo hi : vec) : res vec :=
  m <- np_maximum a lo ;;
  np_minimum m hi.

Definition zeros (shape : vec) : vec := map (fun _ => zero) shape.
Definition ones (shape : vec) : vec := map (fun _ => one) shape.

Definition vec_eqb (a b : vec) : bool :=
  Nat.eqb (length a) (length b) && forallb (fun p => num_eqb (fst p) (snd p)) (combine a b).

(** ** Calls, and the monad that threads them *)

Inductive event : Type :=
| Ev_calc_gradient (w : vec)
| Ev_quickprop_step (w dw_prev dL_prev : vec).

Definition trace : Type := list event.

Definition M (A : Type) : Type := trace -> res A * trace.

#[global] Instance Monad_M : Monad M :=
  {| ret := fun A (x : A) (t : trace) => (inr x, t);
     bind := fun A B (c : M A) (k : A -> M B) (t : trace) =>
       match c t with
       | (inl e, t') => (inl e, t')
       | (inr x, t') => k x t'
       end |}.

Definition lift {A : Type} (r : res A) : M A := fun t => (r, t).
Definition raise {A : Type} (e : exn) : M A := fun t => (inl e, t).
Definition emit (e : event) : M unit := fun t => (inr tt, t ++ [e]).

Definition count_gradient_calls (t : trace) : nat :=
  length (filter (fun e => match e with Ev_calc_gradient _ => true | _ => false end) t).

(** The parameter vectors the gradient provider was called on, in order. *)
Fixpoint gradient_call_parameters (t : trace) : list vec :=
  match t with
  | [] => []
  | Ev_calc_gradient w :: t' => w :: gradient_call_parameters t'
  | _ :: t' => gradient_call_parameters t'
  end.

(** The arguments of the first call of [quickprop_step] in a trace. *)
Fixpoint first_quickprop_step (t : trace) : option (vec * vec * vec) :=
  match t with
  | [] => None
  | Ev_quickprop_step w dw_prev dL_prev :: _ => Some (w, dw_prev, dL_prev)
  | _ :: t' => first_quickprop_step t'
  end.

(** ** Default arguments *)

Definition gd_learning_rate_default : Qc := Q2Qc (1 # 100000).   (* 1e-5 *)
Definition qp_learning_rate_default : Qc := Q2Qc (3 # 2).        (* 1.5 *)
Definition max_growth_factor_default : Qc := Q2Qc (7 # 4).       (* 1.75 *)
Definition learning_rate_default : Qc := Q2Qc (1 # 10000).       (* 1e-4 *)
Definition tolerance_default : Qc := Q2Qc (1 # 1000000).         (* 1e-6 *)
Definition patience_default : Z := 20000.

Definition two : num := Fin (Q2Qc 2).
Definition half : Qc := Q2Qc (1 # 2).

(** ** The helper functions of the update rule *)

(** The term [ddw * (-learning_rate * dL)] that [cond_add_slope] adds. *)
Definition slope_term (dw dw_prev dL : vec) (learning_rate : Qc) : res vec :=
  s <- t_add (np_sign dw) (np_sign dw_prev) ;;
  let ddw := np_clip_s (np_abs s) zero one in
  t_mul ddw (smul (Fin (- learning_rate)%Qc) dL).

Definition cond_add_slope (dw dw_prev dL : vec) (learning_rate : Qc) : res vec :=
  term <- slope_term dw dw_prev dL learning_rate ;;
  t_add dw term.

Definition clip_at_max_growth (dw dw_prev : vec) (max_growth_factor : Qc)
  : res vec :=
  let max_growth := smul (Fin max_growth_factor) (np_abs dw_prev) in
  np_clip dw (t_neg max_growth) max_growth.

(** ** What the driver's [predicted] variable holds *)

Inductive pyobj (pred : Type) : Type :=
| EmptyList                (* the literal [] *)
| Tensor (p : pred).

Arguments EmptyList {pred}.
Arguments Tensor {pred} p.

(** [obj.detach().numpy()]: a list has no [detach]. *)
Definition detach {pred : Type} (o : pyobj pred) : M pred :=
  match o with
  | EmptyList => raise AttributeError
  | Tensor p => ret p
  end.

(** Python's [1 / n] on an int [n]. *)
Definition py_inv (n : Z) : M num :=
  if Z.eqb n 0 then raise ZeroDivisionError
  else ret (Fin (1 / Q2Qc (inject_Z n))%Qc).

(** The local variables of [quickprop] that live across loop iterations. *)
Record locals (pred : Type) : Type := mkLocals {
  l_w : vec;
  l_dw_prev : vec;
  l_dL : vec;
  l_dL_prev : vec;
  l_L : num;
  l_L_mean : num;
  l_L_mean_prev : num;
  l_L_mean_diff : num;
  l_i : Z;
  l_predicted : pyobj pred
}.

Arguments mkLocals {pred}.
Arguments l_w {pred}.
Arguments l_dw_prev {pred}.
Arguments l_dL {pred}.
Arguments l_dL_prev {pred}.
Arguments l_L {pred}.
Arguments l_L_mean {pred}.
Arguments l_L_mean_prev {pred}.
Arguments l_L_mean_diff {pred}.
Arguments l_i {pred}.
Arguments l_predicted {pred}.

(** The running-mean rule of the specification, in its words and operation
    order: [runningMean + (1 / (i + 1)) * (currentLoss - runningMean)],
    [i] the iteration count from 1. *)
Definition spec_mean_update (m : num) (i : Z) (L : num) : num :=
  nadd m (nmul (ndiv one (num_of_Z (i + 1))) (nsub L m)).

Fixpoint spec_mean_from (m : num) (i : Z) (losses : list num) : num :=
  match losses with
  | [] => m
  | L :: rest => spec_mean_from (spec_mean_update m i L) (i + 1) rest
  end.

Definition spec_running_mean (losses : list num) : num :=
  spec_mean_from one 1 losses.

(** ** Providers used to run the code on concrete inputs *)

(** The loss sum (w_k - 3)^2 with gradient 2 (w_k - 3). *)
Definition three : num := Fin (Q2Qc 3).

Definition quad_provider (w : vec) : num * vec * unit :=
  (fold_right nadd zero (map (fun x => nmul (nsub x three) (nsub x three)) w),
   map (fun x => nmul two (nsub x three)) w,
   tt).

(** A loss that does not depend on the parameters: the gradient is zero. *)
Definition flat_provider (w : vec) : num * vec * unit :=
  (one, zeros w, tt).

(** A loss with the same slope everywhere: sum of w_k. *)
Definition linear_provider (w : vec) : num * vec * unit :=
  (fold_right nadd zero w, ones w, tt).

(** ** The program *)

Section Quickprop.

(** [x], [y], [activation] and [loss] are fixed; [provider w] is the loss,
    its gradient with respect to [w], and the prediction. *)
Variable pred : Type.
Variable provider : vec -> num * vec * pred.

Definition gradient_of (w : vec) : vec := snd (fst (provider w)).
Definition loss_of (w : vec) : num := fst (fst (provider w)).

Definition calc_gradient (w : vec) : M (num * vec * pred) :=
  _ <- emit (Ev_calc_gradient w) ;;
  ret (provider w).

Definition grad_descent_step (w : vec) (learning_rate : Qc)
  : M (vec * vec * num * vec) :=
  '(L, dL, predicted) <- calc_gradient w ;;
  let dw := smul (Fin (- learning_rate)%Qc) dL in
  new_w <- lift (t_add w dw) ;;
  ret (new_w, dw, L, dL).

Definition quickprop_step (w dw_prev dL_prev : vec)
    (qp_learning_rate gd_learning_rate : Qc)
  : M (vec * vec * num * vec * pred) :=
  _ <- emit (Ev_quickprop_step w dw_prev dL_prev) ;;
  '(L, dL, predicted) <- calc_gradient w ;;
  d <- lift (t_sub dL_prev dL) ;;
  let ddL := np_ceil (sdiv (np_clip_s (np_abs d) zero one) two) in
  d' <- lift (t_sub dL_prev dL) ;;
  q <- lift (t_div dw_prev d') ;;
  quickprop_factor <- lift (t_mul ddL q) ;;
  let grad_desc_factor := muls (rsub one ddL) (Fin (- gd_learning_rate)%Qc) in
  s <- lift (t_add quickprop_factor grad_desc_factor) ;;
  dw <- lift (t_mul dL s) ;;
  dw <- lift (cond_add_slope dw dw_prev dL qp_learning_rate) ;;
  dw <- lift (clip_at_max_growth dw dw_prev max_growth_factor_default) ;;
  new_w <- lift (t_add w dw) ;;
  ret (new_w, dw, L, dL, predicted).

(** Everything [quickprop] does before its loop. *)
Definition quickprop_init (weights : vec) : M (locals pred) :=
  let w := weights in
  let L_mean := one in
  let L_mean_prev := one in
  let L_mean_diff := one in
  let dL := zeros w in
  let dL_prev := ones w in
  let dw_prev := ones w in
  '(w, dw_prev, L, dL_prev) <- grad_descent_step w gd_learning_rate_default ;;
  let i := 0%Z in
  let predicted := EmptyList in
  ret (mkLocals w dw_prev dL dL_prev L L_mean L_mean_prev L_mean_diff i
         predicted).

Definition loop_cond (tolerance : Qc) (patience : Z) (s : locals pred)
  : bool :=
  ngtb (l_L_mean_diff s) (Fin tolerance) && (l_i s <? patience)%Z.

Definition loop_body (learning_rate : Qc) (s : locals pred)
  : M (locals pred) :=
  let i := (l_i s + 1)%Z in
  let dL_prev := l_dL s in
  '(w, dw, L, dL, predicted) <-
    quickprop_step (l_w s) (l_dw_prev s) dL_prev learning_rate
      gd_learning_rate_default ;;
  let dw_prev := dw in
  c <- py_inv (i + 1) ;;
  let L_mean := nadd (l_L_mean s) (nmul c (nsub L (l_L_mean s))) in
  let L_mean_diff := nabs (nsub (l_L_mean_prev s) L_mean) in
  let L_mean_prev := L_mean in
  ret (mkLocals w dw_prev dL dL_prev L L_mean L_mean_prev L_mean_diff i
         (Tensor predicted)).

(** The [while] loop; [None] when the fuel runs out first. *)
Fixpoint while_loop (fuel : nat) (learning_rate tolerance : Qc)
    (patience : Z) (s : locals pred) : M (option (locals pred)) :=
  if loop_cond tolerance patience s then
    match fuel with
    | O => ret None
    | S fuel' =>
        s' <- loop_body learning_rate s ;;
        while_loop fuel' learning_rate tolerance patience s'
    end
  else ret (Some s).

Definition quickprop_fuel (fuel : nat) (weights : vec)
    (learning_rate tolerance : Qc) (patience : Z)
  : M (option (vec * pred * Z * num)) :=
  s0 <- quickprop_init weights ;;
  r <- while_loop fuel learning_rate tolerance patience s0 ;;
  match r with
  | None => ret None
  | Some s =>
      p <- detach (l_predicted s) ;;
      ret (Some (l_w s, p, l_i s, l_L s))
  end.

(** The loop runs at most [patience] times, so that much fuel is enough
    (see [while_loop_first_exit]). *)
Definition quickprop (weights : vec) (learning_rate tolerance : Qc)
    (patience : Z) : M (option (vec * pred * Z * num)) :=
  quickprop_fuel (Z.to_nat patience) weights learning_rate tolerance patience.

(** [n] runs of the loop body in a row, with the losses they saw. *)
Fixpoint loop_iterations (n : nat) (learning_rate : Qc) (s : locals pred)
  : M (locals pred * list num) :=
  match n with
  | O => ret (s, [])
  | S n' =>
      s1 <- loop_body learning_rate s ;;
      '(s2, losses) <- loop_iterations n' learning_rate s1 ;;
      ret (s2, l_L s1 :: losses)
  end.

End Quickprop.

Arguments gradient_of {pred}.
Arguments loss_of {pred}.
Arguments calc_gradient {pred}.
Arguments grad_descent_step {pred}.
Arguments quickprop_step {pred}.
Arguments quickprop_init {pred}.
Arguments loop_cond {pred}.
Arguments loop_body {pred}.
Arguments while_loop {pred}.
Arguments quickprop_fuel {pred}.
Arguments quickprop {pred}.
Arguments loop_iterations {pred}.

(** ** The update rule seen at one component

    The same expressions as in [slope_term], [cond_add_slope],
    [clip_at_max_growth] and [quickprop_step], on one entry;
    [quickprop_step_same_shape] below shows that the tensor code computes
    exactly these, entry by entry, when the shapes agree. *)

Definition slope_term_at (learning_rate : Qc) (dw dw_prev dL : num) : num :=
  let ddw := nclip (nabs (nadd (nsign dw) (nsign dw_prev))) zero one in
  nmul ddw (nmul (Fin (- learning_rate)%Qc) dL).

Definition cond_add_slope_at (learning_rate : Qc) (dw dw_prev dL : num) : num :=
  nadd dw (slope_term_at learning_rate dw dw_prev dL).

Definition clip_at_max_growth_at (max_growth_factor : Qc) (dw dw_prev : num)
  : num :=
  let max_growth := nmul (Fin max_growth_factor) (nabs dw_prev) in
  nclip dw (nopp max_growth) max_growth.

(** The delta before the slope addition and the clamp. *)
Definition raw_delta_at (gd_learning_rate : Qc) (dL dw_prev dL_prev : num)
  : num :=
  let d := nsub dL_prev dL in
  let ddL := nceil (ndiv (nclip (nabs d) zero one) two) in
  let quickprop_factor := nmul ddL (ndiv dw_prev d) in
  let grad_desc_factor := nmul (nsub one ddL) (Fin (- gd_learning_rate)%Qc) in
  nmul dL (nadd quickprop_factor grad_desc_factor).

Definition quickprop_delta_at (qp_learning_rate gd_learning_rate : Qc)
    (dL dw_prev dL_prev : num) : num :=
  clip_at_max_growth_at max_growth_factor_default
    (cond_add_slope_at qp_learning_rate
       (raw_delta_at gd_learning_rate dL dw_prev dL_prev) dw_prev dL)
    dw_prev.

Fixpoint map3 {A B C D : Type} (f : A -> B -> C -> D)
    (a : list A) (b : list B) (c : list C) : list D :=
  match a, b, c with
  | x :: a', y :: b', z :: c' => f x y z :: map3 f a' b' c'
  | _, _, _ => []
  end.

(** What a gradient provider guarantees: the gradient has the shape of the
    parameters ([w_var.grad] of [w_var]). *)
Definition shape_preserving {pred : Type} (provider : vec -> num * vec * pred)
  : Prop :=
  forall w, length (gradient_of provider w) = length w.

(** The tensors the loop carries all have the shape of the parameters. *)
Definition shaped {pred : Type} (s : locals pred) : Prop :=
  length (l_dw_prev s) = length (l_w s) /\ length (l_dL s) = length (l_w s).

(** The delta a call of [quickprop_step] returned, if it returned. *)
Definition returned_delta {pred : Type}
    (r : res (vec * vec * num * vec * pred)) : option vec :=
  match r with
  | inr (_, dw, _, _, _) => Some dw
  | inl _ => None
  end.

Definition returned_parameters {pred : Type}
    (r : res (vec * vec * num * vec * pred)) : option vec :=
  match r with
  | inr (new_w, _, _, _, _) => Some new_w
  | inl _ => None
  end.


(** [|dw| <= 1.75 * |dw_prev|] at one entry, as the comparison evaluates. *)
Definition growth_bounded (dw dw_prev : num) : bool :=
  nleb (nabs dw) (nmul (Fin max_growth_factor_default) (nabs dw_prev)).

(** The iteration count the driver returned, if it returned. *)
Definition returned_iterations {pred : Type}
    (r : res (option (vec * pred * Z * num))) : option Z :=
  match r with
  | inr (Some (_, _, i, _)) => Some i
  | _ => None
  end.

(** * Properties *)

(** ** Lists and broadcasting *)

Lemma length_map2 {A B C : Type} (f : A -> B -> C) a b :
  length (map2 f a b) = Nat.min (length a) (length b).
Proof.
  revert b; induction a as [|x a IH]; intros [|y b]; simpl; auto.
Qed.

Lemma nth_error_map2 {A B C : Type} (f : A -> B -> C) a b k x y :
  nth_error a k = Some x -> nth_error b k = Some y ->
  nth_error (map2 f a b) k = Some (f x y).
Proof.
  revert b k; induction a as [|x0 a IH]; intros [|y0 b] [|k]; simpl;
    try discriminate; intros Ha Hb.
  - congruence.
  - eauto.
Qed.

Lemma nth_error_map3 {A B C D : Type} (f : A -> B -> C -> D) a b c k x y z :
  nth_error a k = Some x -> nth_error b k = Some y -> nth_error c k = Some z ->
  nth_error (map3 f a b c) k = Some (f x y z).
Proof.
  revert b c k; induction a as [|x0 a IH]; intros [|y0 b] [|z0 c] [|k]; simpl;
    try discriminate; intros Ha Hb Hc.
  - congruence.
  - eauto.
Qed.

Lemma length_map3 {A B C D : Type} (f : A -> B -> C -> D) a b c :
  length a = length b -> length a = length c ->
  length (map3 f a b c) = length a.
Proof.
  revert b c; induction a as [|x a IH]; intros [|y b] [|z c]; simpl;
    try discriminate; auto.
Qed.

Lemma broadcast_same f a b :
  length a = length b -> broadcast f a b = inr (map2 f a b).
Proof.
  intros H; unfold broadcast. rewrite H, Nat.eqb_refl. reflexivity.
Qed.





Ltac solve_length :=
  unfold muls, rsub, smul, sdiv, t_neg, np_ceil, np_clip_s, np_abs, np_sign;
  repeat (rewrite length_map || rewrite length_map2
          || (rewrite length_map3 by solve_length));
  (lia || congruence).

(** One step of the monad, leaving the tensor operations folded. *)
Ltac mstep :=
  cbn -[cond_add_slope clip_at_max_growth slope_term broadcast np_clip
        np_maximum np_minimum t_add t_sub t_mul t_div
        grad_descent_step quickprop_step quickprop_init loop_body while_loop
        loop_iterations py_inv Z.add Z.eqb nadd nsub nmul ndiv nabs nopp].

(** ** The helper functions, entry by entry *)

Lemma slope_term_same_shape dw dw_prev dL lr :
  length dw_prev = length dw -> length dL = length dw ->
  slope_term dw dw_prev dL lr = inr (map3 (slope_term_at lr) dw dw_prev dL).
Proof.
  intros H1 H2. unfold slope_term, t_add, t_mul, np_sign, np_abs, np_clip_s, smul.
  rewrite broadcast_same by (rewrite !length_map; congruence). cbn.
  rewrite broadcast_same
    by (rewrite !length_map, length_map2, !length_map, H1, H2, Nat.min_id;
        reflexivity).
  f_equal. revert dw_prev dL H1 H2.
  induction dw as [|x dw IH]; intros [|p dw_prev] [|g dL]; simpl;
    try discriminate; auto.
  intros [= H1] [= H2]. f_equal. auto.
Qed.

Lemma cond_add_slope_same_shape dw dw_prev dL lr :
  length dw_prev = length dw -> length dL = length dw ->
  cond_add_slope dw dw_prev dL lr
  = inr (map3 (cond_add_slope_at lr) dw dw_prev dL).
Proof.
  intros H1 H2. unfold cond_add_slope.
  rewrite slope_term_same_shape by assumption. cbn. unfold t_add.
  rewrite broadcast_same by (rewrite length_map3; congruence).
  f_equal. revert dw_prev dL H1 H2.
  induction dw as [|x dw IH]; intros [|p dw_prev] [|g dL]; simpl;
    try discriminate; auto.
  intros [= H1] [= H2]. f_equal. auto.
Qed.

Lemma clip_at_max_growth_same_shape dw dw_prev f :
  length dw_prev = length dw ->
  clip_at_max_growth dw dw_prev f
  = inr (map2 (clip_at_max_growth_at f) dw dw_prev).
Proof.
  intros H. unfold clip_at_max_growth, np_clip, np_maximum, np_minimum,
    t_neg, smul, np_abs.
  rewrite broadcast_same by (rewrite !length_map; congruence). cbn.
  rewrite broadcast_same
    by (rewrite length_map2, !length_map, H, Nat.min_id; reflexivity).
  f_equal. revert dw_prev H.
  induction dw as [|x dw IH]; intros [|p dw_prev]; simpl;
    try discriminate; auto.
  intros [= H]. f_equal. auto.
Qed.

(** ** Entries: signs, order and finiteness *)

Lemma Qcsgn_Eq x : Qcsgn x = Eq <-> x = 0%Qc.
Proof. unfold Qcsgn. symmetry. apply Qceq_alt. Qed.

Lemma Qcsgn_Gt x : Qcsgn x = Gt <-> (0 < x)%Qc.
Proof. unfold Qcsgn. symmetry. apply Qcgt_alt. Qed.

Lemma Qcminus_eq_0 x y : (x - y)%Qc = 0%Qc <-> x = y.
Proof.
  split; intros H.
  - rewrite <- (Qcplus_0_l y), <- H. ring.
  - subst. ring.
Qed.

Lemma Qcopp_le_self m : (0 <= m)%Qc -> (- m <= m)%Qc.
Proof.
  intros H. apply Qcle_trans with 0%Qc; [|assumption].
  replace 0%Qc with (- 0)%Qc by ring. apply Qcopp_le_compat. assumption.
Qed.

Lemma nleb_Fin x y : nleb (Fin x) (Fin y) = true <-> (x <= y)%Qc.
Proof.
  simpl. rewrite Qcle_alt. destruct (x ?= y)%Qc; split; congruence.
Qed.

Lemma nleb_Fin_false x y : nleb (Fin x) (Fin y) = false <-> (y < x)%Qc.
Proof.
  simpl. rewrite (Qcgt_alt x y). destruct (x ?= y)%Qc; split; congruence.
Qed.

Lemma num_eqb_eq a b : num_eqb a b = true -> a = b.
Proof.
  destruct a as [x| | |], b as [y| | |]; simpl; try discriminate; auto.
  destruct (x ?= y)%Qc eqn:E; try discriminate.
  intros _. f_equal. apply Qceq_alt. assumption.
Qed.

Lemma vec_eqb_eq a b : vec_eqb a b = true -> a = b.
Proof.
  unfold vec_eqb. revert b.
  induction a as [|x a IH]; intros [|y b]; simpl; try discriminate; auto.
  rewrite andb_true_iff, Nat.eqb_eq, andb_true_iff.
  intros [Hl [Hxy Hall]]. f_equal.
  - apply num_eqb_eq; assumption.
  - apply IH. rewrite andb_true_iff, Nat.eqb_eq. split; [lia | assumption].
Qed.

Lemma finite_nadd a b :
  is_finite a = true -> is_finite b = true -> is_finite (nadd a b) = true.
Proof. destruct a, b; simpl; try discriminate; auto. Qed.

Lemma finite_nopp a : is_finite a = true -> is_finite (nopp a) = true.
Proof. destruct a; simpl; try discriminate; auto. Qed.

Lemma finite_nsub a b :
  is_finite a = true -> is_finite b = true -> is_finite (nsub a b) = true.
Proof. intros; apply finite_nadd; auto using finite_nopp. Qed.

Lemma finite_nmul a b :
  is_finite a = true -> is_finite b = true -> is_finite (nmul a b) = true.
Proof. destruct a, b; simpl; try discriminate; auto. Qed.

Lemma finite_nabs a : is_finite a = true -> is_finite (nabs a) = true.
Proof. destruct a; simpl; try discriminate; auto. Qed.

Lemma finite_nsign a : is_finite a = true -> is_finite (nsign a) = true.
Proof. destruct a; simpl; try discriminate; auto. destruct (Qcsgn q); auto. Qed.

Lemma finite_nceil a : is_finite a = true -> is_finite (nceil a) = true.
Proof. destruct a; simpl; try discriminate; auto. Qed.

Lemma finite_nmax a b :
  is_finite a = true -> is_finite b = true -> is_finite (nmax a b) = true.
Proof.
  destruct a, b; try discriminate. intros _ _. unfold nmax.
  destruct (nleb (Fin q) (Fin q0)); reflexivity.
Qed.

Lemma finite_nmin a b :
  is_finite a = true -> is_finite b = true -> is_finite (nmin a b) = true.
Proof.
  destruct a, b; try discriminate. intros _ _. unfold nmin.
  destruct (nleb (Fin q) (Fin q0)); reflexivity.
Qed.

Lemma finite_nclip a lo hi :
  is_finite a = true -> is_finite lo = true -> is_finite hi = true ->
  is_finite (nclip a lo hi) = true.
Proof. intros. unfold nclip. auto using finite_nmin, finite_nmax. Qed.

Lemma finite_ndiv a y :
  is_finite a = true -> y <> 0%Qc -> is_finite (ndiv a (Fin y)) = true.
Proof.
  destruct a as [x| | |]; try discriminate. intros _ Hy. simpl.
  destruct (Qcsgn y) eqn:E; try reflexivity.
  apply Qcsgn_Eq in E. contradiction.
Qed.

Create HintDb finite.

#[local] Hint Resolve finite_nadd finite_nopp finite_nsub finite_nmul
  finite_nabs finite_nsign finite_nceil finite_nmax finite_nmin finite_nclip
  : finite.

(** ** The clamp *)

Lemma max_growth_nonneg f b :
  (0 <= f)%Qc -> (0 <= f * Qcabs b)%Qc.
Proof.
  intros Hf. rewrite <- (Qcmult_0_l (Qcabs b)).
  apply Qcmult_le_compat_r; [assumption | apply Qcabs_nonneg].
Qed.

(** A clamp to [-m, m], [0 <= m], of anything but NaN lands in [-m, m]. *)
Lemma nclip_symmetric_bound a m :
  (0 <= m)%Qc -> is_nan a = false ->
  exists r, nclip a (nopp (Fin m)) (Fin m) = Fin r /\ (Qcabs r <= m)%Qc.
Proof.
  intros Hm Ha. pose proof (Qcopp_le_self m Hm) as Hmm.
  assert (Hneg : nmin (Fin (- m)%Qc) (Fin m) = Fin (- m)%Qc).
  { unfold nmin. destruct (nleb (Fin (- m)%Qc) (Fin m)) eqn:E; auto.
    apply nleb_Fin_false in E. exfalso. revert E. apply Qcle_not_lt. exact Hmm. }
  assert (Habs_neg : (Qcabs (- m) <= m)%Qc).
  { rewrite Qcabs_opp, Qcabs_pos by assumption. apply Qcle_refl. }
  assert (Habs_pos : (Qcabs m <= m)%Qc).
  { rewrite Qcabs_pos by assumption. apply Qcle_refl. }
  unfold nclip. destruct a as [x| | |]; simpl nopp; try discriminate.
  - unfold nmax. destruct (nleb (Fin x) (Fin (- m)%Qc)) eqn:E1.
    + rewrite Hneg. eauto.
    + apply nleb_Fin_false in E1.
      unfold nmin. destruct (nleb (Fin x) (Fin m)) eqn:E2.
      * apply nleb_Fin in E2. exists x. split; auto.
        apply Qcabs_Qcle_condition. split; auto using Qclt_le_weak.
      * eauto.
  - simpl. eauto.
  - simpl nmax. rewrite Hneg. eauto.
Qed.

Lemma clip_at_max_growth_at_bound f a b :
  (0 <= f)%Qc -> is_nan a = false ->
  exists r, clip_at_max_growth_at f a (Fin b) = Fin r
            /\ (Qcabs r <= f * Qcabs b)%Qc.
Proof.
  intros Hf Ha. unfold clip_at_max_growth_at. simpl nmul. simpl nabs.
  apply nclip_symmetric_bound; auto using max_growth_nonneg.
Qed.

Lemma max_growth_factor_default_nonneg : (0 <= max_growth_factor_default)%Qc.
Proof. apply Qcle_alt. vm_compute. discriminate. Qed.

(** ** The update rule at one entry *)

Lemma two_nonzero : Q2Qc 2 <> 0%Qc.
Proof. intros H. apply Qceq_alt in H. vm_compute in H. discriminate. Qed.

(** With finite entries and gradients that differ, every intermediate value
    is finite: the only division by an entry of the tensors is by
    [dL_prev - dL]. *)
Lemma raw_delta_finite gd x y z :
  z <> x -> is_finite (raw_delta_at gd (Fin x) (Fin y) (Fin z)) = true.
Proof.
  intros Hzx. unfold raw_delta_at. cbv zeta.
  change (nsub (Fin z) (Fin x)) with (Fin (z + - x)%Qc).
  assert (Hd : (z + - x)%Qc <> 0%Qc).
  { intros H. apply Hzx. apply Qcminus_eq_0. exact H. }
  assert (HddL : is_finite
            (nceil (ndiv (nclip (nabs (Fin (z + - x)%Qc)) zero one) two)) = true).
  { apply finite_nceil. unfold two. apply finite_ndiv; [|exact two_nonzero].
    apply finite_nclip; reflexivity. }
  apply finite_nmul; [reflexivity|].
  apply finite_nadd.
  - apply finite_nmul; [exact HddL|]. apply finite_ndiv; [reflexivity | exact Hd].
  - apply finite_nmul; [|reflexivity]. apply finite_nsub; [reflexivity | exact HddL].
Qed.

Lemma cond_add_slope_at_finite lr a p g :
  is_finite a = true -> is_finite p = true -> is_finite g = true ->
  is_finite (cond_add_slope_at lr a p g) = true.
Proof.
  intros Ha Hp Hg. unfold cond_add_slope_at, slope_term_at, zero, one.
  auto 10 with finite.
Qed.

Lemma finite_not_nan a : is_finite a = true -> is_nan a = false.
Proof. destruct a; simpl; congruence. Qed.

(** Growth bound, where the division guard works. *)
Lemma quickprop_delta_growth_bound qp gd x y z :
  z <> x ->
  exists r, quickprop_delta_at qp gd (Fin x) (Fin y) (Fin z) = Fin r
            /\ (Qcabs r <= max_growth_factor_default * Qcabs y)%Qc.
Proof.
  intros Hzx. unfold quickprop_delta_at.
  apply clip_at_max_growth_at_bound.
  - exact max_growth_factor_default_nonneg.
  - apply finite_not_nan, cond_add_slope_at_finite; try reflexivity.
    apply raw_delta_finite; assumption.
Qed.

(** A zero previous delta stays zero, where the division guard works. *)
Lemma quickprop_delta_zero_absorbing qp gd x z :
  z <> x -> quickprop_delta_at qp gd (Fin x) zero (Fin z) = zero.
Proof.
  intros Hzx.
  destruct (quickprop_delta_growth_bound qp gd x 0%Qc z Hzx) as [r [Hr Hb]].
  unfold zero. rewrite Hr. f_equal. apply Qcabs_null.
  apply Qcle_antisym; [|apply Qcabs_nonneg].
  replace 0%Qc with (max_growth_factor_default * Qcabs 0)%Qc at 2; [exact Hb|].
  rewrite (Qcabs_pos 0%Qc) by apply Qcle_refl. ring.
Qed.

(** Where the two gradients are equal the decider bit is 0, the quotient
    [dw_prev / 0] is an infinity or NaN, and their product is NaN. *)
Lemma raw_delta_equal_gradients gd x y :
  raw_delta_at gd (Fin x) (Fin y) (Fin x) = NaN.
Proof.
  unfold raw_delta_at. cbv zeta.
  change (nsub (Fin x) (Fin x)) with (Fin (x + - x)%Qc).
  replace (x + - x)%Qc with 0%Qc by ring.
  change (nceil (ndiv (nclip (nabs (Fin 0%Qc)) zero one) two))
    with (num_of_Z 0).
  simpl ndiv. unfold scale_inf.
  destruct (Qcsgn y); reflexivity.
Qed.

Lemma quickprop_delta_equal_gradients qp gd x y :
  quickprop_delta_at qp gd (Fin x) (Fin y) (Fin x) = NaN.
Proof.
  unfold quickprop_delta_at. rewrite raw_delta_equal_gradients. reflexivity.
Qed.

(** ** The running mean *)

Lemma Qcsgn_inject_pos n : (0 < n)%Z -> Qcsgn (Q2Qc (inject_Z n)) = Gt.
Proof.
  intros Hn. apply Qcsgn_Gt. unfold Qclt. cbn [this Q2Qc].
  rewrite !Qred_correct. unfold Qlt. simpl. lia.
Qed.

Lemma Qcsgn_inv_pos q : Qcsgn q = Gt -> Qcsgn (1 / q)%Qc = Gt.
Proof.
  intros Hq. apply Qcsgn_Gt in Hq. apply Qcsgn_Gt.
  unfold Qclt, Qcdiv, Qcmult, Qcinv in *. cbn [this Q2Qc] in *.
  rewrite !Qred_correct in *. rewrite Qmult_1_l.
  apply Qinv_lt_0_compat. exact Hq.
Qed.

(** The code's [m + (1/(i+1)) * (L - m)] is the specification's
    [m + (L - m)/(i+1)], also at the special values. *)
Lemma mean_update_eq m L n :
  (0 < n)%Z ->
  nadd m (nmul (Fin (1 / Q2Qc (inject_Z n))%Qc) (nsub L m))
  = nadd m (ndiv (nsub L m) (num_of_Z n)).
Proof.
  intros Hn. f_equal. unfold num_of_Z.
  pose proof (Qcsgn_inject_pos n Hn) as Hs.
  pose proof (Qcsgn_inv_pos _ Hs) as Hi.
  destruct (nsub L m) as [x| | |]; simpl; rewrite ?Hs, ?Hi; try reflexivity.
  f_equal. field. intros H. apply Qcsgn_Eq in H. congruence.
Qed.

(** ** The update rule, entry by entry *)

Lemma raw_delta_same_shape gd dL dw_prev dL_prev :
  length dw_prev = length dL -> length dL_prev = length dL ->
  map2 nmul dL
    (map2 nadd
       (map2 nmul
          (np_ceil (sdiv (np_clip_s (np_abs (map2 nsub dL_prev dL)) zero one) two))
          (map2 ndiv dw_prev (map2 nsub dL_prev dL)))
       (muls
          (rsub one
             (np_ceil
                (sdiv (np_clip_s (np_abs (map2 nsub dL_prev dL)) zero one) two)))
          (Fin (- gd)%Qc)))
  = map3 (raw_delta_at gd) dL dw_prev dL_prev.
Proof.
  revert dw_prev dL_prev.
  induction dL as [|g dL IH]; intros [|p dw_prev] [|gp dL_prev]; simpl;
    try discriminate; auto.
  intros [= H1] [= H2]. f_equal. apply IH; assumption.
Qed.

Lemma quickprop_delta_same_shape qp gd dL dw_prev dL_prev :
  length dw_prev = length dL -> length dL_prev = length dL ->
  map2 (clip_at_max_growth_at max_growth_factor_default)
    (map3 (cond_add_slope_at qp)
       (map3 (raw_delta_at gd) dL dw_prev dL_prev) dw_prev dL)
    dw_prev
  = map3 (quickprop_delta_at qp gd) dL dw_prev dL_prev.
Proof.
  revert dw_prev dL_prev.
  induction dL as [|g dL IH]; intros [|p dw_prev] [|gp dL_prev]; simpl;
    try discriminate; auto.
  intros [= H1] [= H2]. f_equal. apply IH; assumption.
Qed.

Section Properties.

Variable pred : Type.
Variable provider : vec -> num * vec * pred.
Hypothesis provider_shape : shape_preserving provider.

Lemma grad_descent_step_run w lr t :
  grad_descent_step provider w lr t
  = (inr (map2 nadd w (smul (Fin (- lr)%Qc) (gradient_of provider w)),
          smul (Fin (- lr)%Qc) (gradient_of provider w),
          loss_of provider w,
          gradient_of provider w),
     t ++ [Ev_calc_gradient w]).
Proof.
  unfold grad_descent_step, calc_gradient, emit, lift, gradient_of, loss_of.
  pose proof (provider_shape w) as Hlen. unfold gradient_of in Hlen.
  cbn. destruct (provider w) as [[L dL] pr]. cbn in *.
  unfold t_add. rewrite broadcast_same by (unfold smul; rewrite length_map; auto).
  reflexivity.
Qed.

(** With shapes that agree, [quickprop_step] raises nothing and computes
    [quickprop_delta_at] at every entry. *)
Lemma quickprop_step_same_shape w dw_prev dL_prev qp gd t :
  length dw_prev = length w -> length dL_prev = length w ->
  let dL := gradient_of provider w in
  let dw := map3 (quickprop_delta_at qp gd) dL dw_prev dL_prev in
  quickprop_step provider w dw_prev dL_prev qp gd t
  = (inr (map2 nadd w dw, dw, loss_of provider w, dL, snd (provider w)),
     t ++ [Ev_quickprop_step w dw_prev dL_prev] ++ [Ev_calc_gradient w]).
Proof.
  intros H1 H2 dL dw. subst dw dL.
  pose proof (provider_shape w) as Hlen.
  unfold quickprop_step, calc_gradient, emit, lift, gradient_of, loss_of in *.
  mstep. destruct (provider w) as [[L dL] pr]. cbn [fst snd] in *. mstep.
  unfold t_sub, t_div, t_mul, t_add.
  rewrite (broadcast_same nsub) by congruence. mstep.
  assert (Hd : length (map2 nsub dL_prev dL) = length dL)
    by (rewrite length_map2; lia).
  rewrite (broadcast_same ndiv) by congruence. mstep.
  rewrite (broadcast_same nmul) by solve_length. mstep.
  rewrite (broadcast_same nadd) by solve_length. mstep.
  rewrite (broadcast_same nmul) by solve_length. mstep.
  rewrite raw_delta_same_shape by congruence.
  rewrite cond_add_slope_same_shape by solve_length. mstep.
  rewrite clip_at_max_growth_same_shape by solve_length. mstep.
  rewrite quickprop_delta_same_shape by congruence.
  rewrite (broadcast_same nadd) by solve_length.
  rewrite <- app_assoc. reflexivity.
Qed.

(** C8. [grad_descent_step] returns [(w + dw, dw, loss, gradient)] with
    [dw = -learning_rate * gradient] entry by entry, raises nothing, and
    calls the gradient provider exactly once. *)
Theorem grad_descent_step_contract w lr t :
  let g := gradient_of provider w in
  let dw := map (nmul (Fin (- lr)%Qc)) g in
  grad_descent_step provider w lr t
  = (inr (map2 nadd w dw, dw, loss_of provider w, g),
     t ++ [Ev_calc_gradient w])
  /\ length dw = length w
  /\ count_gradient_calls (snd (grad_descent_step provider w lr t))
     = S (count_gradient_calls t).
Proof.
  intros g dw. rewrite grad_descent_step_run. subst g dw. unfold smul.
  split; [reflexivity|]. split.
  - rewrite length_map. apply provider_shape.
  - unfold count_gradient_calls. cbn [snd].
    rewrite filter_app, length_app. simpl. lia.
Qed.

(** C1. Where the previous and the current gradient are equal at an
    entry, [quickprop_step] does form the quotient [dw_prev / 0] there,
    which is not finite, and returns NaN as that entry's delta, not the
    gradient-descent term. *)
Theorem quickprop_step_equal_gradients_nan w dw_prev dL_prev qp gd t k g p :
  length dw_prev = length w -> length dL_prev = length w ->
  nth_error (gradient_of provider w) k = Some (Fin g) ->
  nth_error dL_prev k = Some (Fin g) ->
  nth_error dw_prev k = Some (Fin p) ->
  nsub (Fin g) (Fin g) = zero
  /\ is_finite (ndiv (Fin p) (nsub (Fin g) (Fin g))) = false
  /\ exists dw,
      returned_delta (fst (quickprop_step provider w dw_prev dL_prev qp gd t))
      = Some dw
      /\ nth_error dw k = Some NaN.
Proof.
  intros H1 H2 Hg Hgp Hp.
  assert (Hz : nsub (Fin g) (Fin g) = zero).
  { unfold zero. simpl. f_equal. ring. }
  split; [exact Hz|]. split.
  - rewrite Hz. simpl. unfold scale_inf. destruct (Qcsgn p); reflexivity.
  - rewrite quickprop_step_same_shape by assumption. cbn [fst returned_delta].
    eexists; split; [reflexivity|].
    rewrite (nth_error_map3 _ _ _ _ _ _ _ _ Hg Hp Hgp).
    rewrite quickprop_delta_equal_gradients. reflexivity.
Qed.


(** Where the two gradients differ at an entry, the returned delta there
    is finite and within the growth bound, and a zero previous delta
    gives a zero delta. *)
Lemma quickprop_step_growth_bound w dw_prev dL_prev qp gd t k g gp p :
  length dw_prev = length w -> length dL_prev = length w ->
  nth_error (gradient_of provider w) k = Some (Fin g) ->
  nth_error dL_prev k = Some (Fin gp) ->
  nth_error dw_prev k = Some (Fin p) ->
  gp <> g ->
  exists dw r,
    returned_delta (fst (quickprop_step provider w dw_prev dL_prev qp gd t))
    = Some dw
    /\ nth_error dw k = Some (Fin r)
    /\ (Qcabs r <= max_growth_factor_default * Qcabs p)%Qc
    /\ growth_bounded (Fin r) (Fin p) = true
    /\ (p = 0%Qc -> r = 0%Qc).
Proof.
  intros H1 H2 Hg Hgp Hp Hne.
  rewrite quickprop_step_same_shape by assumption. cbn [fst returned_delta].
  destruct (quickprop_delta_growth_bound qp gd g p gp Hne) as [r [Hr Hb]].
  eexists; exists r. split; [reflexivity|]. split.
  - rewrite (nth_error_map3 _ _ _ _ _ _ _ _ Hg Hp Hgp). rewrite Hr.
    reflexivity.
  - split; [exact Hb|]. split.
    + unfold growth_bounded. apply nleb_Fin. exact Hb.
    + intros ->.
      pose proof (quickprop_delta_zero_absorbing qp gd g gp Hne) as Hz.
      unfold zero in Hz. rewrite Hr in Hz. congruence.
Qed.

(** ** The driver *)

Lemma quickprop_init_run weights t :
  let g := gradient_of provider weights in
  let dw := map (nmul (Fin (- gd_learning_rate_default)%Qc)) g in
  quickprop_init provider weights t
  = (inr (mkLocals (map2 nadd weights dw) dw (zeros weights) g
            (loss_of provider weights) one one one 0%Z EmptyList),
     t ++ [Ev_calc_gradient weights]).
Proof.
  intros g dw. unfold quickprop_init. mstep.
  rewrite grad_descent_step_run. reflexivity.
Qed.

Lemma quickprop_init_shaped weights t s0 t0 :
  quickprop_init provider weights t = (inr s0, t0) -> shaped s0.
Proof.
  rewrite quickprop_init_run. intros [= <- _]. unfold shaped. cbn.
  pose proof (provider_shape weights). unfold zeros. split; solve_length.
Qed.

Lemma loop_body_run lr s t :
  shaped s -> (0 <= l_i s)%Z ->
  exists s',
    loop_body provider lr s t
    = (inr s',
       t ++ [Ev_quickprop_step (l_w s) (l_dw_prev s) (l_dL s);
             Ev_calc_gradient (l_w s)])
    /\ shaped s'
    /\ l_i s' = (l_i s + 1)%Z
    /\ l_L s' = loss_of provider (l_w s)
    /\ l_L_mean s'
       = nadd (l_L_mean s)
           (ndiv (nsub (l_L s') (l_L_mean s)) (num_of_Z (l_i s' + 1)))
    /\ l_L_mean_diff s' = nabs (nsub (l_L_mean_prev s) (l_L_mean s'))
    /\ l_L_mean_prev s' = l_L_mean s'
    /\ l_predicted s' = Tensor (snd (provider (l_w s))).
Proof.
  intros [Hp Hg] Hi. unfold loop_body.
  mstep. rewrite quickprop_step_same_shape by assumption. mstep.
  unfold py_inv. destruct (Z.eqb_spec (l_i s + 1 + 1) 0) as [E|_]; [lia|].
  mstep. eexists. split; [reflexivity|].
  unfold shaped.
  cbn [l_w l_dw_prev l_dL l_i l_L l_L_mean l_L_mean_diff l_L_mean_prev
       l_predicted].
  pose proof (provider_shape (l_w s)) as Hlen.
  rewrite mean_update_eq by lia.
  repeat split; solve_length.
Qed.



(** ** The calls the driver makes *)

Lemma quickprop_step_trace w dw_prev dL_prev qp gd t :
  snd (quickprop_step provider w dw_prev dL_prev qp gd t)
  = t ++ [Ev_quickprop_step w dw_prev dL_prev; Ev_calc_gradient w].
Proof.
  unfold quickprop_step, calc_gradient, emit, lift.
  mstep. destruct (provider w) as [[L dL] pr]. mstep.
  rewrite <- app_assoc. cbn [app].
  repeat match goal with
         | |- context [match ?x with inl _ => _ | inr _ => _ end] =>
             destruct x; mstep
         end; reflexivity.
Qed.

Lemma loop_body_trace lr s t :
  snd (loop_body provider lr s t)
  = t ++ [Ev_quickprop_step (l_w s) (l_dw_prev s) (l_dL s);
          Ev_calc_gradient (l_w s)].
Proof.
  unfold loop_body. mstep.
  pose proof (quickprop_step_trace (l_w s) (l_dw_prev s) (l_dL s) lr
                gd_learning_rate_default t) as Ht.
  destruct (quickprop_step provider (l_w s) (l_dw_prev s) (l_dL s) lr
              gd_learning_rate_default t) as [[e|[[[[w dw] L] dL] p]] t1];
    cbn [snd] in Ht; subst t1; [reflexivity|].
  unfold py_inv. destruct (Z.eqb (l_i s + 1 + 1) 0); reflexivity.
Qed.

Lemma while_loop_trace fuel lr tol patience s t :
  exists rest,
    snd (while_loop provider fuel lr tol patience s t) = t ++ rest.
Proof.
  revert s t. induction fuel as [|fuel IH]; intros s t; cbn [while_loop];
    destruct (loop_cond tol patience s);
    try (exists []; rewrite app_nil_r; reflexivity).
  mstep. pose proof (loop_body_trace lr s t) as Ht.
  destruct (loop_body provider lr s t) as [[e|s1] t1]; cbn [snd] in Ht;
    subst t1.
  - eexists; reflexivity.
  - destruct (IH s1
                (t ++ [Ev_quickprop_step (l_w s) (l_dw_prev s) (l_dL s);
                       Ev_calc_gradient (l_w s)])) as [rest Hrest].
    rewrite Hrest, <- app_assoc. eexists; reflexivity.
Qed.

(** C2. When the loop runs at all, the first call of [quickprop_step]
    gets the seeding step's parameters and delta, but as previous
    gradient the zero tensor that [dL] was initialised with: the gradient
    the seeding step returned is overwritten by [dL_prev = dL.clone()]. *)
Theorem first_quickprop_step_arguments weights lr tol patience :
  (tol < 1)%Qc -> (0 < patience)%Z ->
  let g := gradient_of provider weights in
  let dw := map (nmul (Fin (- gd_learning_rate_default)%Qc)) g in
  first_quickprop_step (snd (quickprop provider weights lr tol patience []))
  = Some (map2 nadd weights dw, dw, zeros weights).
Proof.
  intros Htol Hpat g dw. unfold quickprop.
  destruct (Z.to_nat patience) as [|fuel] eqn:Hfuel; [lia|].
  unfold quickprop_fuel. mstep. rewrite quickprop_init_run. mstep.
  fold g. fold dw. cbn [while_loop].
  assert (Hc : loop_cond tol patience
                 (mkLocals (map2 nadd weights dw) dw (zeros weights) g
                    (loss_of provider weights) one one one 0%Z
                    (@EmptyList pred)) = true).
  { unfold loop_cond. cbn [l_L_mean_diff l_i]. apply andb_true_iff. split.
    - unfold one, ngtb. apply (Qcgt_alt 1%Qc tol) in Htol. rewrite Htol.
      reflexivity.
    - apply Z.ltb_lt. exact Hpat. }
  rewrite Hc. mstep.
  match goal with
  | |- context [loop_body provider lr ?s0 ?t0] =>
      pose proof (loop_body_trace lr s0 t0) as Ht;
      destruct (loop_body provider lr s0 t0) as [[e|s1] t1]
  end; cbn [snd l_w l_dw_prev l_dL] in Ht; subst t1; [reflexivity|].
  match goal with
  | |- context [while_loop provider fuel lr tol patience s1 ?t1] =>
      destruct (while_loop_trace fuel lr tol patience s1 t1) as [rest Ht];
      destruct (while_loop provider fuel lr tol patience s1 t1)
        as [[e|[s2|]] t2]
  end; cbn [snd] in Ht; subst t2; try reflexivity.
  destruct (l_predicted s2); reflexivity.
Qed.

(** ** The running mean over the iterations *)

(** One run of the body: the loss stored is the provider's at the current
    parameters, and the mean is updated by the specification's rule. *)
Lemma loop_body_mean lr s t :
  shaped s -> (0 <= l_i s)%Z ->
  exists s',
    loop_body provider lr s t
    = (inr s',
       t ++ [Ev_quickprop_step (l_w s) (l_dw_prev s) (l_dL s);
             Ev_calc_gradient (l_w s)])
    /\ shaped s'
    /\ l_i s' = (l_i s + 1)%Z
    /\ l_L s' = loss_of provider (l_w s)
    /\ l_L_mean s' = spec_mean_update (l_L_mean s) (l_i s') (l_L s').
Proof.
  intros [Hp Hg] Hi. unfold loop_body.
  mstep. rewrite quickprop_step_same_shape by assumption. mstep.
  unfold py_inv. destruct (Z.eqb_spec (l_i s + 1 + 1) 0) as [E|_]; [lia|].
  mstep. eexists. split; [reflexivity|].
  unfold shaped, spec_mean_update.
  cbn [l_w l_dw_prev l_dL l_i l_L l_L_mean].
  pose proof (provider_shape (l_w s)) as Hlen.
  assert (Hinv : ndiv one (num_of_Z (l_i s + 1 + 1))
                 = Fin (1 / Q2Qc (inject_Z (l_i s + 1 + 1)))%Qc).
  { unfold one, num_of_Z. cbn [ndiv].
    rewrite Qcsgn_inject_pos by lia. reflexivity. }
  rewrite Hinv.
  repeat split; solve_length.
Qed.

Lemma loop_iterations_mean n lr s t :
  shaped s -> (0 <= l_i s)%Z ->
  exists s' losses calls,
    loop_iterations provider n lr s t = (inr (s', losses), t ++ calls)
    /\ losses = map (loss_of provider) (gradient_call_parameters calls)
    /\ length losses = n
    /\ l_i s' = (l_i s + Z.of_nat n)%Z
    /\ l_L_mean s' = spec_mean_from (l_L_mean s) (l_i s + 1) losses.
Proof.
  revert s t. induction n as [|n IH]; intros s t Hs Hi.
  - exists s, [], []. cbn. rewrite app_nil_r. repeat split. lia.
  - destruct (loop_body_mean lr s t Hs Hi)
      as [s1 [Hrun [Hs1 [Hi1 [HL Hm]]]]].
    destruct (IH s1
                (t ++ [Ev_quickprop_step (l_w s) (l_dw_prev s) (l_dL s);
                       Ev_calc_gradient (l_w s)]) Hs1)
      as [s' [losses [calls [Hit [Hlosses [Hlen [Hi' Hm']]]]]]]; [lia|].
    exists s', (l_L s1 :: losses),
      ([Ev_quickprop_step (l_w s) (l_dw_prev s) (l_dL s);
        Ev_calc_gradient (l_w s)] ++ calls).
    cbn [loop_iterations]. mstep. rewrite Hrun. mstep. rewrite Hit. mstep.
    rewrite <- app_assoc.
    split; [reflexivity|]. split.
    { cbn [app gradient_call_parameters map]. rewrite HL, Hlosses.
      reflexivity. }
    split; [cbn; lia|]. split; [lia|].
    cbn [spec_mean_from]. rewrite Hm', Hm, Hi1. reflexivity.
Qed.

(** Every exit state of the loop is the state after some number of runs
    of the body. *)
Lemma while_loop_iterations fuel lr tol patience s t s' t' :
  while_loop provider fuel lr tol patience s t = (inr (Some s'), t') ->
  exists n losses,
    loop_iterations provider n lr s t = (inr (s', losses), t').
Proof.
  revert s t. induction fuel as [|fuel IH]; intros s t; cbn [while_loop];
    destruct (loop_cond tol patience s);
    try (intros [= <- <-]; exists O, []; reflexivity);
    try discriminate.
  mstep. destruct (loop_body provider lr s t) as [[e|s1] t1] eqn:Hb;
    [discriminate|].
  intros Hw. destruct (IH s1 t1 Hw) as [n [losses Hit]].
  exists (S n), (l_L s1 :: losses).
  cbn [loop_iterations]. mstep. rewrite Hb. mstep. rewrite Hit. reflexivity.
Qed.

(** C3. After [n] iterations the running mean is [m_n] of the recurrence
    [m_i = m_{i-1} + (1/(i+1)) * (L_i - m_{i-1})], [m_0 = 1], where
    [L_1 .. L_n] are the losses the gradient provider returned at the
    parameters of the [n] iterations, and the iteration count is [n]; the
    state in which the driver's loop stops is such a state. *)
Theorem running_mean_recurrence weights lr n t :
  exists s0 t0,
    quickprop_init provider weights t = (inr s0, t0)
    /\ (exists s losses calls,
          loop_iterations provider n lr s0 t0 = (inr (s, losses), t0 ++ calls)
          /\ losses = map (loss_of provider) (gradient_call_parameters calls)
          /\ length losses = n
          /\ l_i s = Z.of_nat n
          /\ l_L_mean s = spec_running_mean losses)
    /\ (forall fuel tol patience s' t',
          while_loop provider fuel lr tol patience s0 t0 = (inr (Some s'), t')
          -> exists calls,
              t' = t0 ++ calls
              /\ l_i s' = Z.of_nat (length (gradient_call_parameters calls))
              /\ l_L_mean s'
                 = spec_running_mean
                     (map (loss_of provider) (gradient_call_parameters calls))).
Proof.
  pose proof (quickprop_init_run weights t) as Hinit. cbv zeta in Hinit.
  pose proof (quickprop_init_shaped weights t _ _ Hinit) as Hs0.
  match type of Hinit with
  | _ = (inr ?x, ?y) => set (s0 := x) in *; set (t0 := y) in *
  end.
  assert (Hgen : forall m, exists s losses calls,
             loop_iterations provider m lr s0 t0 = (inr (s, losses), t0 ++ calls)
             /\ losses = map (loss_of provider) (gradient_call_parameters calls)
             /\ length losses = m
             /\ l_i s = Z.of_nat m
             /\ l_L_mean s = spec_running_mean losses).
  { intros m.
    destruct (loop_iterations_mean m lr s0 t0 Hs0)
      as [s [losses [calls [Hit [Hl [Hlen [Hi Hm]]]]]]]; [cbn; lia|].
    exists s, losses, calls. repeat split; auto. }
  exists s0, t0. split; [exact Hinit|]. split; [apply Hgen|].
  intros fuel tol patience s' t' Hw.
  destruct (while_loop_iterations fuel lr tol patience s0 t0 s' t' Hw)
    as [m [losses' Hit']].
  destruct (Hgen m) as [s [losses [calls [Hit [Hl [Hlen [Hi Hm]]]]]]].
  rewrite Hit in Hit'. injection Hit' as <- <- <-.
  exists calls. split; [reflexivity|].
  assert (Hc : length (gradient_call_parameters calls) = m)
    by (rewrite <- Hlen, Hl, length_map; reflexivity).
  rewrite Hc, <- Hl. split; [exact Hi | exact Hm].
Qed.

(** C10. When the loop body is never run (the sentinel difference 1 is
    not above [tolerance], or [patience] is not positive), [quickprop]
    raises on its return statement: [predicted] is still the empty list,
    which has no [detach]. *)
Theorem quickprop_no_iteration_raises weights lr tol patience fuel t :
  (1 <= tol)%Qc \/ (patience <= 0)%Z ->
  exists s0 t0,
    quickprop_init provider weights t = (inr s0, t0)
    /\ while_loop provider fuel lr tol patience s0 t0 = (inr (Some s0), t0)
    /\ l_predicted s0 = EmptyList
    /\ quickprop_fuel provider fuel weights lr tol patience t
       = (inl AttributeError, t0)
    /\ quickprop provider weights lr tol patience t
       = (inl AttributeError, t0).
Proof.
  intros H.
  pose proof (quickprop_init_run weights t) as Hinit. cbv zeta in Hinit.
  match type of Hinit with
  | _ = (inr ?x, ?y) => set (s0 := x) in *; set (t0 := y) in *
  end.
  assert (Hc : loop_cond tol patience s0 = false).
  { unfold loop_cond. apply andb_false_iff. destruct H as [H|H].
    - left. subst s0. cbn [l_L_mean_diff]. unfold one, ngtb.
      apply Qcle_alt in H.
      destruct (1 ?= tol)%Qc eqn:E; try reflexivity.
      exfalso. apply H. exact E.
    - right. apply Z.ltb_ge. cbn. exact H. }
  assert (Hw : forall f, while_loop provider f lr tol patience s0 t0
                         = (inr (Some s0), t0)).
  { intros [|f]; cbn [while_loop]; rewrite Hc; reflexivity. }
  exists s0, t0. split; [exact Hinit|]. split; [apply Hw|].
  split; [reflexivity|].
  unfold quickprop, quickprop_fuel. mstep. rewrite Hinit. mstep.
  rewrite !Hw. split; reflexivity.
Qed.

End Properties.

(** ** The conditional slope addition *)

Lemma num_eqb_refl a : num_eqb a a = true.
Proof.
  destruct a as [x| | |]; simpl; auto.
  assert (E : (x ?= x)%Qc = Eq) by (apply Qceq_alt; reflexivity).
  rewrite E. reflexivity.
Qed.

Lemma num_eqb_neq a b : num_eqb a b = false -> a <> b.
Proof. intros H E. subst. rewrite num_eqb_refl in H. discriminate. Qed.

Lemma nsign_cases x :
  (Qcsgn x = Lt /\ nsign (Fin x) = Fin (- (1))%Qc)
  \/ (Qcsgn x = Eq /\ nsign (Fin x) = zero)
  \/ (Qcsgn x = Gt /\ nsign (Fin x) = one).
Proof. unfold nsign. destruct (Qcsgn x); auto. Qed.

(** The decider [ddw] is 0 for opposite signs and 1 when exactly one of
    the two signs is 0. *)
Lemma decider_opposite :
  nclip (nabs (nadd one (Fin (- (1))%Qc))) zero one = zero
  /\ nclip (nabs (nadd (Fin (- (1))%Qc) one)) zero one = zero.
Proof. split; apply num_eqb_eq; vm_compute; reflexivity. Qed.

Lemma decider_one_zero :
  nclip (nabs (nadd one zero)) zero one = one
  /\ nclip (nabs (nadd (Fin (- (1))%Qc) zero)) zero one = one
  /\ nclip (nabs (nadd zero one)) zero one = one
  /\ nclip (nabs (nadd zero (Fin (- (1))%Qc))) zero one = one.
Proof. repeat split; apply num_eqb_eq; vm_compute; reflexivity. Qed.

(** With exactly one of the two deltas zero the term is added in full. *)
Lemma slope_term_at_one_zero lr x g :
  x <> 0%Qc ->
  slope_term_at lr (Fin x) zero (Fin g) = Fin (- lr * g)%Qc
  /\ slope_term_at lr zero (Fin x) (Fin g) = Fin (- lr * g)%Qc.
Proof.
  intros Hx. unfold slope_term_at. cbv zeta.
  destruct decider_one_zero as [D1 [D2 [D3 D4]]].
  change (nsign zero) with zero.
  destruct (nsign_cases x) as [[Ex Sx]|[[Ex Sx]|[Ex Sx]]];
    try (apply Qcsgn_Eq in Ex; contradiction);
    rewrite Sx, ?D1, ?D2, ?D3, ?D4; unfold one; simpl; split; f_equal; ring.
Qed.

(** The signs of two entries are opposite: one is 1, the other -1 (so
    neither entry is zero or NaN).  Then the decider is 0, and the term is
    0 times [-learning_rate * dL]. *)
Lemma slope_term_at_opposite_signs lr x p g :
  (nsign x = one /\ nsign p = Fin (- (1))%Qc)
  \/ (nsign x = Fin (- (1))%Qc /\ nsign p = one) ->
  (is_finite (nmul (Fin (- lr)%Qc) g) = true -> slope_term_at lr x p g = zero)
  /\ (is_finite (nmul (Fin (- lr)%Qc) g) = false ->
      slope_term_at lr x p g = NaN).
Proof.
  intros Hs. unfold slope_term_at. cbv zeta.
  destruct decider_opposite as [D1 D2].
  assert (Hd : nclip (nabs (nadd (nsign x) (nsign p))) zero one = zero)
    by (destruct Hs as [[-> ->]|[-> ->]]; assumption).
  rewrite Hd.
  destruct (nmul (Fin (- lr)%Qc) g) as [y| | |]; split; intros Hg;
    try discriminate; try reflexivity.
  unfold zero. cbn [nmul]. f_equal. ring.
Qed.

(** C5, as the code has it.  At an entry where the raw delta and the
    previous delta have opposite signs (both nonzero, neither NaN) the term
    that [cond_add_slope] adds is exactly zero and the delta is returned
    unchanged, provided [-learning_rate * dL] is finite there; where it is
    infinite or NaN (as for an infinite or NaN gradient) the term is
    [0 * inf] or [0 * NaN], which is NaN. *)
Theorem slope_term_opposite_signs dw dw_prev dL lr k x p g :
  length dw_prev = length dw -> length dL = length dw ->
  nth_error dw k = Some x ->
  nth_error dw_prev k = Some p ->
  nth_error dL k = Some g ->
  (nsign x = one /\ nsign p = Fin (- (1))%Qc)
  \/ (nsign x = Fin (- (1))%Qc /\ nsign p = one) ->
  exists term out,
    slope_term dw dw_prev dL lr = inr term
    /\ cond_add_slope dw dw_prev dL lr = inr out
    /\ (is_finite (nmul (Fin (- lr)%Qc) g) = true ->
        nth_error term k = Some zero /\ nth_error out k = Some x)
    /\ (is_finite (nmul (Fin (- lr)%Qc) g) = false ->
        nth_error term k = Some NaN)
    /\ (is_finite g = false -> is_finite (nmul (Fin (- lr)%Qc) g) = false).
Proof.
  intros H1 H2 Hx Hp Hg Hs.
  destruct (slope_term_at_opposite_signs lr x p g Hs) as [Hfin Hinf].
  rewrite slope_term_same_shape, cond_add_slope_same_shape by assumption.
  do 2 eexists. split; [reflexivity|]. split; [reflexivity|].
  rewrite !(nth_error_map3 _ _ _ _ _ _ _ _ Hx Hp Hg).
  split; [|split].
  - intros Hgf. unfold cond_add_slope_at. rewrite (Hfin Hgf).
    split; [reflexivity|].
    f_equal. destruct x as [a| | |]; unfold zero; cbn [nadd];
      try reflexivity.
    f_equal. ring.
  - intros Hgf. rewrite (Hinf Hgf). reflexivity.
  - destruct g as [g'| | |]; intros Hgf; try discriminate; cbn [nmul];
      try reflexivity; unfold scale_inf; destruct (Qcsgn (- lr));
      reflexivity.
Qed.

(** C5 as stated fails where one sign is zero: for [dw = 1], [dw_prev = 0]
    the signs differ and the term [-learning_rate * dL] is added. *)
Lemma slope_term_zero_sign_counterexample :
  ~ (forall (dw dw_prev dL : vec) (lr : Qc) (term : vec) (k : nat)
            (x p y : num),
        slope_term dw dw_prev dL lr = inr term ->
        nth_error dw k = Some x -> nth_error dw_prev k = Some p ->
        nsign x <> nsign p ->
        nth_error term k = Some y -> y = zero).
Proof.
  intros H.
  assert (Hy : slope_term_at qp_learning_rate_default one zero one = zero).
  { apply (H [one] [zero] [one] qp_learning_rate_default
             [slope_term_at qp_learning_rate_default one zero one] O
             one zero); try reflexivity.
    apply num_eqb_neq. vm_compute. reflexivity. }
  revert Hy. apply num_eqb_neq. vm_compute. reflexivity.
Qed.

(** ** Runs on concrete inputs *)

Lemma quad_provider_shape : shape_preserving quad_provider.
Proof. intros w. unfold gradient_of, quad_provider. cbn. apply length_map. Qed.

Lemma flat_provider_shape : shape_preserving flat_provider.
Proof. intros w. unfold gradient_of, flat_provider, zeros. cbn. apply length_map. Qed.

Lemma linear_provider_shape : shape_preserving linear_provider.
Proof. intros w. unfold gradient_of, linear_provider, ones. cbn. apply length_map. Qed.

(** C4. The clamp is the last operation of [quickprop_step], but it lets
    NaN through: with equal gradients (slope 1 before and now) and a
    previous delta of 1/2 the returned delta is NaN, and
    [|NaN| <= 1.75 * 1/2] is false. *)
Theorem growth_bound_fails_on_equal_gradients :
  returned_delta
    (fst (quickprop_step linear_provider [zero] [Fin (Q2Qc (1 # 2))] [one]
            qp_learning_rate_default gd_learning_rate_default []))
  = Some [NaN]
  /\ growth_bounded NaN (Fin (Q2Qc (1 # 2))) = false.
Proof. split; vm_compute; reflexivity. Qed.

(** C9. A zero previous delta does not stay zero when the gradient is
    the same as before: the quotient is 0/0, the returned delta and the new
    parameter are NaN.  The driver reaches this state by itself on a loss
    with zero gradient, and returns NaN parameters. *)
Theorem zero_delta_not_absorbing_on_equal_gradients :
  returned_delta
    (fst (quickprop_step flat_provider [one] [zero] [zero]
            qp_learning_rate_default gd_learning_rate_default []))
  = Some [NaN]
  /\ returned_parameters
       (fst (quickprop_step flat_provider [one] [zero] [zero]
               qp_learning_rate_default gd_learning_rate_default []))
     = Some [NaN]
  /\ match fst (quickprop flat_provider [one] learning_rate_default
                  tolerance_default 5 []) with
     | inr (Some (w, _, i, _)) => w = [NaN] /\ i = 1%Z
     | _ => False
     end.
Proof. repeat split; vm_compute; reflexivity. Qed.


(** ** The theorems at concrete inputs *)

Lemma grad_descent_step_contract_witness :
  shape_preserving quad_provider
  /\ (grad_descent_step quad_provider [zero] gd_learning_rate_default []
      = (inr (map2 nadd [zero]
                (map (nmul (Fin (- gd_learning_rate_default)%Qc))
                   (gradient_of quad_provider [zero])),
              map (nmul (Fin (- gd_learning_rate_default)%Qc))
                (gradient_of quad_provider [zero]),
              loss_of quad_provider [zero],
              gradient_of quad_provider [zero]),
         [] ++ [Ev_calc_gradient [zero]])
      /\ length (map (nmul (Fin (- gd_learning_rate_default)%Qc))
                   (gradient_of quad_provider [zero]))
         = length [zero]
      /\ count_gradient_calls
           (snd (grad_descent_step quad_provider [zero]
                   gd_learning_rate_default []))
         = S (count_gradient_calls [])).
Proof.
  split; [exact quad_provider_shape|].
  exact (grad_descent_step_contract unit quad_provider quad_provider_shape
           [zero] gd_learning_rate_default []).
Defined.

Lemma quickprop_step_equal_gradients_nan_witness :
  shape_preserving linear_provider
  /\ length [Fin half] = length [zero]
  /\ length [one] = length [zero]
  /\ nth_error (gradient_of linear_provider [zero]) 0 = Some (Fin 1%Qc)
  /\ nth_error [one] 0 = Some (Fin 1%Qc)
  /\ nth_error [Fin half] 0 = Some (Fin half)
  /\ (nsub (Fin 1%Qc) (Fin 1%Qc) = zero
      /\ is_finite (ndiv (Fin half) (nsub (Fin 1%Qc) (Fin 1%Qc))) = false
      /\ exists dw,
          returned_delta
            (fst (quickprop_step linear_provider [zero] [Fin half] [one]
                    qp_learning_rate_default gd_learning_rate_default []))
          = Some dw
          /\ nth_error dw 0 = Some NaN).
Proof.
  split; [exact linear_provider_shape|].
  repeat (split; [reflexivity|]).
  apply (quickprop_step_equal_gradients_nan unit linear_provider
           linear_provider_shape [zero] [Fin half] [one]
           qp_learning_rate_default gd_learning_rate_default [] 0 1%Qc half);
    reflexivity.
Defined.

Lemma first_quickprop_step_arguments_witness :
  shape_preserving quad_provider
  /\ (tolerance_default < 1)%Qc
  /\ (0 < 3)%Z
  /\ first_quickprop_step
       (snd (quickprop quad_provider [zero] learning_rate_default
               tolerance_default 3 []))
     = Some (map2 nadd [zero]
               (map (nmul (Fin (- gd_learning_rate_default)%Qc))
                  (gradient_of quad_provider [zero])),
             map (nmul (Fin (- gd_learning_rate_default)%Qc))
               (gradient_of quad_provider [zero]),
             zeros [zero])
  /\ vec_eqb (gradient_of quad_provider [zero]) [Fin (Q2Qc (- 6 # 1))] = true
  /\ vec_eqb (gradient_of quad_provider [zero]) (zeros [zero]) = false.
Proof.
  split; [exact quad_provider_shape|].
  split; [reflexivity|]. split; [reflexivity|].
  split; [|split; vm_compute; reflexivity].
  apply (first_quickprop_step_arguments unit quad_provider quad_provider_shape
           [zero] learning_rate_default tolerance_default 3); reflexivity.
Defined.

Lemma running_mean_recurrence_witness :
  shape_preserving quad_provider
  /\ exists s0 t0,
      quickprop_init quad_provider [zero] [] = (inr s0, t0)
      /\ (exists s losses calls,
            loop_iterations quad_provider 2 learning_rate_default s0 t0
            = (inr (s, losses), t0 ++ calls)
            /\ losses
               = map (loss_of quad_provider) (gradient_call_parameters calls)
            /\ length losses = 2%nat
            /\ l_i s = Z.of_nat 2
            /\ l_L_mean s = spec_running_mean losses)
      /\ (forall fuel tol patience s' t',
            while_loop quad_provider fuel learning_rate_default tol patience
              s0 t0 = (inr (Some s'), t')
            -> exists calls,
                t' = t0 ++ calls
                /\ l_i s' = Z.of_nat (length (gradient_call_parameters calls))
                /\ l_L_mean s'
                   = spec_running_mean
                       (map (loss_of quad_provider)
                          (gradient_call_parameters calls))).
Proof.
  split; [exact quad_provider_shape|].
  exact (running_mean_recurrence unit quad_provider quad_provider_shape
           [zero] learning_rate_default 2 []).
Defined.

Lemma slope_term_opposite_signs_witness :
  length [Fin (- (1))%Qc] = length [one]
  /\ length [one] = length [one]
  /\ nth_error [one] 0 = Some one
  /\ nth_error [Fin (- (1))%Qc] 0 = Some (Fin (- (1))%Qc)
  /\ ((nsign one = one /\ nsign (Fin (- (1))%Qc) = Fin (- (1))%Qc)
      \/ (nsign one = Fin (- (1))%Qc /\ nsign (Fin (- (1))%Qc) = one))
  /\ exists term out,
      slope_term [one] [Fin (- (1))%Qc] [one] qp_learning_rate_default
      = inr term
      /\ cond_add_slope [one] [Fin (- (1))%Qc] [one] qp_learning_rate_default
         = inr out
      /\ (is_finite (nmul (Fin (- qp_learning_rate_default)%Qc) one) = true ->
          nth_error term 0 = Some zero /\ nth_error out 0 = Some one)
      /\ (is_finite (nmul (Fin (- qp_learning_rate_default)%Qc) one) = false ->
          nth_error term 0 = Some NaN)
      /\ (is_finite one = false ->
          is_finite (nmul (Fin (- qp_learning_rate_default)%Qc) one) = false).
Proof.
  do 4 (split; [reflexivity|]).
  split; [left; split; reflexivity|].
  apply (slope_term_opposite_signs [one] [Fin (- (1))%Qc] [one]
           qp_learning_rate_default 0 one (Fin (- (1))%Qc) one);
    try reflexivity.
  left; split; reflexivity.
Defined.



Lemma quickprop_no_iteration_raises_witness :
  shape_preserving quad_provider
  /\ ((1 <= 1)%Qc \/ (3 <= 0)%Z)
  /\ exists s0 t0,
      quickprop_init quad_provider [zero] [] = (inr s0, t0)
      /\ while_loop quad_provider 3 learning_rate_default 1%Qc 3 s0 t0
         = (inr (Some s0), t0)
      /\ l_predicted s0 = EmptyList
      /\ quickprop_fuel quad_provider 3 [zero] learning_rate_default 1%Qc 3 []
         = (inl AttributeError, t0)
      /\ quickprop quad_provider [zero] learning_rate_default 1%Qc 3 []
         = (inl AttributeError, t0).
Proof.
  split; [exact quad_provider_shape|].
  split; [left; vm_compute; discriminate|].
  apply (quickprop_no_iteration_raises unit quad_provider quad_provider_shape
           [zero] learning_rate_default 1%Qc 3 3 []).
  left; vm_compute; discriminate.
Defined.

(** * Further properties of the update rule and of the driver *)

(** ** The raw delta when the decider bit is set *)

(** When the decider bit is 1 the gradient-descent branch contributes
    [(1 - 1) * (-gd_learning_rate)] and the raw delta is the jump
    [dL * (dw_prev / (dL_prev - dL))]. *)
Lemma raw_delta_decided gd g p gp :
  nceil (ndiv (nclip (nabs (nsub gp g)) zero one) two) = one ->
  raw_delta_at gd g p gp = nmul g (ndiv p (nsub gp g)).
Proof.
  intros Hd. unfold raw_delta_at. cbv zeta. rewrite Hd. f_equal.
  destruct (ndiv p (nsub gp g)) as [q| | |]; try reflexivity.
  unfold one. cbn [nsub nopp nadd nmul]. f_equal. ring.
Qed.

(** ** The clamp, case by case *)

Lemma nclip_symmetric_cases x m :
  (0 <= m)%Qc ->
  ((Qcabs x <= m)%Qc -> nclip (Fin x) (nopp (Fin m)) (Fin m) = Fin x)
  /\ ((m < x)%Qc -> nclip (Fin x) (nopp (Fin m)) (Fin m) = Fin m)
  /\ ((x < - m)%Qc -> nclip (Fin x) (nopp (Fin m)) (Fin m) = Fin (- m)%Qc).
Proof.
  intros Hm. pose proof (Qcopp_le_self m Hm) as Hmm.
  unfold nclip. cbn [nopp]. unfold nmax, nmin.
  repeat split; intros H.
  - apply Qcabs_Qcle_condition in H. destruct H as [Hlo Hhi].
    destruct (nleb (Fin x) (Fin (- m)%Qc)) eqn:E1.
    + apply nleb_Fin in E1.
      assert (Hx : x = (- m)%Qc) by (apply Qcle_antisym; assumption).
      subst x. destruct (nleb (Fin (- m)%Qc) (Fin m)) eqn:E2; [reflexivity|].
      apply nleb_Fin_false in E2. exfalso. exact (Qclt_not_le _ _ E2 Hmm).
    + destruct (nleb (Fin x) (Fin m)) eqn:E2; [reflexivity|].
      apply nleb_Fin_false in E2. exfalso. revert E2.
      apply Qcle_not_lt. exact Hhi.
  - destruct (nleb (Fin x) (Fin (- m)%Qc)) eqn:E1.
    + apply nleb_Fin in E1. exfalso.
      apply (Qclt_not_le _ _ H). apply Qcle_trans with (- m)%Qc; assumption.
    + destruct (nleb (Fin x) (Fin m)) eqn:E2; [|reflexivity].
      apply nleb_Fin in E2. exfalso. exact (Qclt_not_le _ _ H E2).
  - destruct (nleb (Fin x) (Fin (- m)%Qc)) eqn:E1.
    + destruct (nleb (Fin (- m)%Qc) (Fin m)) eqn:E2; [reflexivity|].
      apply nleb_Fin_false in E2. exfalso. exact (Qclt_not_le _ _ E2 Hmm).
    + apply nleb_Fin_false in E1. exfalso.
      exact (Qclt_not_le _ _ H (Qclt_le_weak _ _ E1)).
Qed.

(** ** Signs *)

Lemma decider_same :
  nclip (nabs (nadd one one)) zero one = one
  /\ nclip (nabs (nadd (Fin (- (1))%Qc) (Fin (- (1))%Qc))) zero one = one.
Proof. split; apply num_eqb_eq; vm_compute; reflexivity. Qed.

(** With the same nonzero sign the slope term is added in full. *)
Lemma slope_term_at_same_sign lr x p g :
  x <> 0%Qc -> nsign (Fin x) = nsign (Fin p) ->
  slope_term_at lr (Fin x) (Fin p) (Fin g) = Fin (- lr * g)%Qc.
Proof.
  intros Hx Hs. unfold slope_term_at. cbv zeta. rewrite <- Hs.
  destruct decider_same as [D1 D2].
  destruct (nsign_cases x) as [[Ex Sx]|[[Ex Sx]|[Ex Sx]]];
    try (apply Qcsgn_Eq in Ex; contradiction);
    rewrite Sx, ?D1, ?D2; unfold one; cbn [nmul]; f_equal; ring.
Qed.

(** ** NaN *)

Lemma nmul_NaN_r a : nmul a NaN = NaN.
Proof. destruct a; reflexivity. Qed.

Lemma nadd_NaN_r a : nadd a NaN = NaN.
Proof. destruct a; reflexivity. Qed.

Lemma quickprop_delta_at_NaN qp gd g gp :
  quickprop_delta_at qp gd g NaN gp = NaN.
Proof.
  unfold quickprop_delta_at, raw_delta_at. cbv zeta.
  assert (Hq : forall d, ndiv NaN d = NaN) by reflexivity.
  rewrite Hq, nmul_NaN_r. cbn [nadd]. rewrite nmul_NaN_r. reflexivity.
Qed.

Lemma nth_error_lt_Some {A : Type} (l : list A) k :
  (k < length l)%nat -> exists x, nth_error l k = Some x.
Proof.
  intros H. destruct (nth_error l k) eqn:E; eauto.
  apply nth_error_None in E. lia.
Qed.

Lemma nth_error_Some_lt {A : Type} (l : list A) k x :
  nth_error l k = Some x -> (k < length l)%nat.
Proof. intros H. apply nth_error_Some. congruence. Qed.

Lemma count_gradient_calls_app t t' :
  count_gradient_calls (t ++ t')
  = (count_gradient_calls t + count_gradient_calls t')%nat.
Proof. unfold count_gradient_calls. rewrite filter_app, length_app. reflexivity. Qed.

(** ** [clip_at_max_growth] and [cond_add_slope] as functions *)

(** X4. [clip_at_max_growth] leaves an entry within the growth bound
    unchanged and cuts one beyond it to the bound, keeping its sign. *)
Theorem clip_at_max_growth_cases dw dw_prev f k x p :
  length dw_prev = length dw -> (0 <= f)%Qc ->
  nth_error dw k = Some (Fin x) -> nth_error dw_prev k = Some (Fin p) ->
  exists out r,
    clip_at_max_growth dw dw_prev f = inr out
    /\ length out = length dw
    /\ nth_error out k = Some (Fin r)
    /\ ((Qcabs x <= f * Qcabs p)%Qc -> r = x)
    /\ ((f * Qcabs p < x)%Qc -> r = (f * Qcabs p)%Qc)
    /\ ((x < - (f * Qcabs p))%Qc -> r = (- (f * Qcabs p))%Qc).
Proof.
  intros Hlen Hf Hx Hp.
  rewrite clip_at_max_growth_same_shape by assumption.
  pose proof (max_growth_nonneg f p Hf) as Hm.
  destruct (nclip_symmetric_cases x _ Hm) as [C1 [C2 C3]].
  destruct (clip_at_max_growth_at_bound f (Fin x) p Hf eq_refl) as [r [Hr _]].
  eexists; exists r. split; [reflexivity|]. split; [solve_length|].
  split; [rewrite (nth_error_map2 _ _ _ _ _ _ Hx Hp), Hr; reflexivity|].
  unfold clip_at_max_growth_at in Hr. cbv zeta in Hr. cbn [nmul nabs] in Hr.
  repeat split; intros H.
  - rewrite (C1 H) in Hr. congruence.
  - rewrite (C2 H) in Hr. congruence.
  - rewrite (C3 H) in Hr. congruence.
Qed.

(** X5. Where the delta and the previous delta have the same nonzero sign,
    [cond_add_slope] adds the full term: the entry becomes
    [dw - learning_rate * dL]. *)
Theorem cond_add_slope_same_sign dw dw_prev dL lr k x p g :
  length dw_prev = length dw -> length dL = length dw ->
  nth_error dw k = Some (Fin x) ->
  nth_error dw_prev k = Some (Fin p) ->
  nth_error dL k = Some (Fin g) ->
  x <> 0%Qc -> nsign (Fin x) = nsign (Fin p) ->
  exists out,
    cond_add_slope dw dw_prev dL lr = inr out
    /\ length out = length dw
    /\ nth_error out k = Some (Fin (x + - lr * g)%Qc).
Proof.
  intros H1 H2 Hx Hp Hg Nx Hs.
  rewrite cond_add_slope_same_shape by assumption.
  eexists. split; [reflexivity|]. split; [solve_length|].
  rewrite (nth_error_map3 _ _ _ _ _ _ _ _ Hx Hp Hg).
  unfold cond_add_slope_at. rewrite slope_term_at_same_sign by assumption.
  reflexivity.
Qed.

(** ** [quickprop_step] and the driver *)

Section MoreProperties.

Variable pred : Type.
Variable provider : vec -> num * vec * pred.
Hypothesis provider_shape : shape_preserving provider.

(** X1. On tensors of one shape [quickprop_step] raises nothing, calls the
    gradient provider once, and returns a delta and new parameters of that
    shape with [new_w = w + dw] entry by entry. *)
Theorem quickprop_step_consistent_shapes w dw_prev dL_prev qp gd t :
  length dw_prev = length w -> length dL_prev = length w ->
  exists new_w dw,
    quickprop_step provider w dw_prev dL_prev qp gd t
    = (inr (new_w, dw, loss_of provider w, gradient_of provider w,
            snd (provider w)),
       t ++ [Ev_quickprop_step w dw_prev dL_prev; Ev_calc_gradient w])
    /\ length dw = length w
    /\ length new_w = length w
    /\ (forall k wk dk,
          nth_error w k = Some wk -> nth_error dw k = Some dk ->
          nth_error new_w k = Some (nadd wk dk)).
Proof.
  intros H1 H2. pose proof (provider_shape w) as Hg.
  rewrite quickprop_step_same_shape by assumption.
  do 2 eexists. split; [reflexivity|].
  assert (Hdw : length (map3 (quickprop_delta_at qp gd)
                          (gradient_of provider w) dw_prev dL_prev)
                = length w) by solve_length.
  split; [exact Hdw|]. split; [solve_length|].
  intros k wk dk Hw Hd. apply nth_error_map2; assumption.
Qed.

(** X2. At an entry where the decider bit [ceil(clip(|dL_prev - dL|, 0, 1)
    / 2)] is 1, the delta before slope addition and clamp is the jump
    [dL * (dw_prev / (dL_prev - dL))]; the returned delta is that value
    passed through the slope addition and the clamp, and the
    gradient-descent rate plays no part. *)
Theorem quickprop_step_parabola_jump w dw_prev dL_prev qp gd t k g gp p :
  length dw_prev = length w -> length dL_prev = length w ->
  nth_error (gradient_of provider w) k = Some g ->
  nth_error dL_prev k = Some gp ->
  nth_error dw_prev k = Some p ->
  nceil (ndiv (nclip (nabs (nsub gp g)) zero one) two) = one ->
  exists dw,
    returned_delta (fst (quickprop_step provider w dw_prev dL_prev qp gd t))
    = Some dw
    /\ nth_error dw k
       = Some (clip_at_max_growth_at max_growth_factor_default
                 (cond_add_slope_at qp (nmul g (ndiv p (nsub gp g))) p g)
                 p).
Proof.
  intros H1 H2 Hg Hgp Hp Hd.
  rewrite quickprop_step_same_shape by assumption. cbn [fst returned_delta].
  eexists. split; [reflexivity|].
  rewrite (nth_error_map3 _ _ _ _ _ _ _ _ Hg Hp Hgp).
  unfold quickprop_delta_at. rewrite raw_delta_decided by assumption.
  reflexivity.
Qed.

(** X3. NaN is absorbing: an entry whose previous delta is NaN gets a NaN
    delta and a NaN parameter, whatever the gradients are. *)
Theorem quickprop_step_nan_absorbing w dw_prev dL_prev qp gd t k :
  length dw_prev = length w -> length dL_prev = length w ->
  nth_error dw_prev k = Some NaN ->
  exists dw new_w,
    returned_delta (fst (quickprop_step provider w dw_prev dL_prev qp gd t))
    = Some dw
    /\ returned_parameters
         (fst (quickprop_step provider w dw_prev dL_prev qp gd t))
       = Some new_w
    /\ nth_error dw k = Some NaN
    /\ nth_error new_w k = Some NaN.
Proof.
  intros H1 H2 Hp. pose proof (provider_shape w) as Hlen.
  pose proof (nth_error_Some_lt _ _ _ Hp) as Hk.
  destruct (nth_error_lt_Some (gradient_of provider w) k) as [g Hg]; [lia|].
  destruct (nth_error_lt_Some dL_prev k) as [gp Hgp]; [lia|].
  destruct (nth_error_lt_Some w k) as [wk Hw]; [lia|].
  rewrite quickprop_step_same_shape by assumption.
  cbn [fst returned_delta returned_parameters].
  do 2 eexists. split; [reflexivity|]. split; [reflexivity|].
  assert (Hd : nth_error (map3 (quickprop_delta_at qp gd)
                            (gradient_of provider w) dw_prev dL_prev) k
               = Some NaN).
  { rewrite (nth_error_map3 _ _ _ _ _ _ _ _ Hg Hp Hgp).
    rewrite quickprop_delta_at_NaN. reflexivity. }
  split; [exact Hd|].
  rewrite (nth_error_map2 _ _ _ _ _ _ Hw Hd), nadd_NaN_r. reflexivity.
Qed.

(** What one run of the loop body leaves in the local variables. *)
Lemma loop_body_fields lr s t :
  shaped s -> (0 <= l_i s)%Z ->
  exists s',
    loop_body provider lr s t
    = (inr s',
       t ++ [Ev_quickprop_step (l_w s) (l_dw_prev s) (l_dL s);
             Ev_calc_gradient (l_w s)])
    /\ l_dw_prev s'
       = map3 (quickprop_delta_at lr gd_learning_rate_default)
           (gradient_of provider (l_w s)) (l_dw_prev s) (l_dL s)
    /\ l_w s' = map2 nadd (l_w s) (l_dw_prev s')
    /\ l_dL s' = gradient_of provider (l_w s)
    /\ l_dL_prev s' = l_dL s
    /\ l_i s' = (l_i s + 1)%Z
    /\ shaped s'
    /\ length (l_w s') = length (l_w s).
Proof.
  intros [Hp Hg] Hi. unfold loop_body.
  mstep. rewrite quickprop_step_same_shape by assumption. mstep.
  unfold py_inv. destruct (Z.eqb_spec (l_i s + 1 + 1) 0) as [E|_]; [lia|].
  mstep. eexists. split; [reflexivity|].
  unfold shaped.
  cbn [l_w l_dw_prev l_dL l_dL_prev l_i].
  pose proof (provider_shape (l_w s)) as Hlen.
  repeat split; solve_length.
Qed.

(** The loop, with enough fuel: where it stops and what it called. *)
Lemma while_loop_run fuel lr tol patience s t :
  shaped s -> (0 <= l_i s)%Z ->
  (Z.to_nat (patience - l_i s) <= fuel)%nat ->
  exists s' t',
    while_loop provider fuel lr tol patience s t = (inr (Some s'), t')
    /\ loop_cond tol patience s' = false
    /\ length (l_w s') = length (l_w s)
    /\ (l_i s <= l_i s')%Z
    /\ count_gradient_calls t'
       = (count_gradient_calls t + Z.to_nat (l_i s' - l_i s))%nat
    /\ (loop_cond tol patience s = true ->
        (l_i s < l_i s' <= patience)%Z
        /\ exists p, l_predicted s' = Tensor p).
Proof.
  revert s t. induction fuel as [|fuel IH]; intros s t Hs Hi Hfuel.
  - cbn [while_loop]. destruct (loop_cond tol patience s) eqn:Hc.
    + unfold loop_cond in Hc. apply andb_true_iff in Hc as [_ Hc].
      apply Z.ltb_lt in Hc. lia.
    + exists s, t. split; [reflexivity|]. split; [exact Hc|].
      split; [reflexivity|]. split; [lia|].
      split; [rewrite Z.sub_diag; simpl; lia | discriminate].
  - cbn [while_loop]. destruct (loop_cond tol patience s) eqn:Hc.
    + pose proof Hc as Hc0.
      unfold loop_cond in Hc. apply andb_true_iff in Hc as [_ Hc].
      apply Z.ltb_lt in Hc.
      destruct (loop_body_run pred provider provider_shape lr s t Hs Hi)
        as [s1 [Hrun [Hs1 [Hi1 [_ [_ [_ [_ Hp1]]]]]]]].
      destruct (loop_body_fields lr s t Hs Hi)
        as [s1' [Hrun' [_ [_ [_ [_ [_ [_ Hl1]]]]]]]].
      rewrite Hrun in Hrun'. injection Hrun' as <-.
      mstep. rewrite Hrun. mstep.
      destruct (IH s1
                  (t ++ [Ev_quickprop_step (l_w s) (l_dw_prev s) (l_dL s);
                         Ev_calc_gradient (l_w s)]) Hs1)
        as [s' [t' [Hw [Hc' [Hl [Hi' [Hcount Hiter]]]]]]]; [lia | lia |].
      exists s', t'. split; [exact Hw|]. split; [exact Hc'|].
      split; [congruence|]. split; [lia|]. split.
      * rewrite Hcount, count_gradient_calls_app.
        change (count_gradient_calls
                  [Ev_quickprop_step (l_w s) (l_dw_prev s) (l_dL s);
                   Ev_calc_gradient (l_w s)]) with 1%nat.
        lia.
      * intros _. destruct (loop_cond tol patience s1) eqn:Hc1.
        -- destruct (Hiter eq_refl) as [Hb Hp]. split; [lia | exact Hp].
        -- assert (Hstop : forall f, while_loop provider f lr tol patience s1
                      (t ++ [Ev_quickprop_step (l_w s) (l_dw_prev s) (l_dL s);
                             Ev_calc_gradient (l_w s)])
                    = (inr (Some s1),
                       t ++ [Ev_quickprop_step (l_w s) (l_dw_prev s) (l_dL s);
                             Ev_calc_gradient (l_w s)])).
           { intros [|f]; cbn [while_loop]; rewrite Hc1; reflexivity. }
           rewrite Hstop in Hw. injection Hw as <- _.
           split; [lia | eauto].
    + exists s, t. split; [reflexivity|]. split; [exact Hc|].
      split; [reflexivity|]. split; [lia|].
      split; [rewrite Z.sub_diag; simpl; lia | discriminate].
Qed.

(** X8. A run of the driver that returns iteration count [i] has called
    the gradient provider [i + 1] times: once in the seeding step and once
    in every iteration. *)
Theorem quickprop_gradient_calls weights lr tol patience fuel t i :
  (Z.to_nat patience <= fuel)%nat ->
  returned_iterations
    (fst (quickprop_fuel provider fuel weights lr tol patience t)) = Some i ->
  count_gradient_calls
    (snd (quickprop_fuel provider fuel weights lr tol patience t))
  = (count_gradient_calls t + 1 + Z.to_nat i)%nat.
Proof.
  intros Hfuel.
  pose proof (quickprop_init_run pred provider provider_shape weights t)
    as Hinit.
  cbv zeta in Hinit.
  pose proof (quickprop_init_shaped pred provider provider_shape weights t
                _ _ Hinit) as Hs0.
  match type of Hinit with
  | _ = (inr ?x, ?y) => set (s0 := x) in *; set (t0 := y) in *
  end.
  destruct (while_loop_run fuel lr tol patience s0 t0 Hs0)
    as [s [t' [Hw [_ [_ [_ [Hcount _]]]]]]].
  { cbn; lia. }
  { cbn. rewrite Z.sub_0_r. exact Hfuel. }
  unfold quickprop_fuel. mstep. rewrite Hinit. mstep. rewrite Hw. mstep.
  destruct (l_predicted s); cbn [detach raise fst snd returned_iterations];
    mstep; [discriminate|].
  intros [= <-]. fold (count_gradient_calls t'). rewrite Hcount. subst t0.
  rewrite count_gradient_calls_app.
  change (count_gradient_calls [Ev_calc_gradient weights]) with 1%nat.
  change (l_i s0) with 0%Z. rewrite Z.sub_0_r. reflexivity.
Qed.

(** X9. With a tolerance below 1 and a positive patience the driver
    raises nothing: it returns parameters of the shape of the initial
    weights and an iteration count between 1 and [patience]. *)
Theorem quickprop_returns weights lr tol patience fuel t :
  (tol < 1)%Qc -> (0 < patience)%Z -> (Z.to_nat patience <= fuel)%nat ->
  exists w p i L t',
    quickprop_fuel provider fuel weights lr tol patience t
    = (inr (Some (w, p, i, L)), t')
    /\ length w = length weights
    /\ (1 <= i <= patience)%Z.
Proof.
  intros Htol Hpat Hfuel.
  pose proof (quickprop_init_run pred provider provider_shape weights t)
    as Hinit.
  cbv zeta in Hinit.
  pose proof (quickprop_init_shaped pred provider provider_shape weights t
                _ _ Hinit) as Hs0.
  match type of Hinit with
  | _ = (inr ?x, ?y) => set (s0 := x) in *; set (t0 := y) in *
  end.
  assert (Hc : loop_cond tol patience s0 = true).
  { unfold loop_cond. subst s0. cbn [l_L_mean_diff l_i].
    apply andb_true_iff. split.
    - unfold one, ngtb. apply (Qcgt_alt 1%Qc tol) in Htol. rewrite Htol.
      reflexivity.
    - apply Z.ltb_lt. exact Hpat. }
  destruct (while_loop_run fuel lr tol patience s0 t0 Hs0)
    as [s [t' [Hw [_ [Hlen [_ [_ Hiter]]]]]]].
  { cbn; lia. }
  { cbn. rewrite Z.sub_0_r. exact Hfuel. }
  destruct (Hiter Hc) as [Hi [p Hp]].
  exists (l_w s), p, (l_i s), (l_L s), t'.
  split.
  - unfold quickprop_fuel. mstep. rewrite Hinit. mstep. rewrite Hw. mstep.
    rewrite Hp. reflexivity.
  - split.
    + rewrite Hlen. subst s0. cbn [l_w].
      pose proof (provider_shape weights). solve_length.
    + change (l_i s0) with 0%Z in Hi. lia.
Qed.


(** X11. The sentinel mean 1 decides the first convergence test: if the
    loss of the first iteration is exactly 1, the running mean stays 1, its
    change is 0, and the driver returns after one iteration whatever the
    (nonnegative) tolerance and however large the gradient still is. *)
Theorem quickprop_stops_on_sentinel_loss weights lr tol patience fuel t :
  (0 <= tol)%Qc -> (tol < 1)%Qc -> (0 < patience)%Z ->
  (Z.to_nat patience <= fuel)%nat ->
  loss_of provider
    (map2 nadd weights
       (map (nmul (Fin (- gd_learning_rate_default)%Qc))
          (gradient_of provider weights)))
  = one ->
  exists w p t',
    quickprop_fuel provider fuel weights lr tol patience t
    = (inr (Some (w, p, 1%Z, one)), t').
Proof.
  intros Htol0 Htol Hpat Hfuel Hloss.
  pose proof (quickprop_init_run pred provider provider_shape weights t)
    as Hinit.
  cbv zeta in Hinit.
  pose proof (quickprop_init_shaped pred provider provider_shape weights t
                _ _ Hinit) as Hs0.
  match type of Hinit with
  | _ = (inr ?x, ?y) => set (s0 := x) in *; set (t0 := y) in *
  end.
  assert (Hc : loop_cond tol patience s0 = true).
  { unfold loop_cond. subst s0. cbn [l_L_mean_diff l_i].
    apply andb_true_iff. split.
    - unfold one, ngtb. apply (Qcgt_alt 1%Qc tol) in Htol. rewrite Htol.
      reflexivity.
    - apply Z.ltb_lt. exact Hpat. }
  destruct (loop_body_run pred provider provider_shape lr s0 t0 Hs0)
    as [s1 [Hrun [_ [Hi1 [HL [Hm [Hdiff [_ Hp]]]]]]]]; [cbn; lia|].
  assert (HL1 : l_L s1 = one) by (rewrite HL; subst s0; exact Hloss).
  assert (Hmean : l_L_mean s1 = one).
  { rewrite Hm, HL1, Hi1. subst s0. cbn [l_L_mean l_i].
    apply num_eqb_eq. vm_compute. reflexivity. }
  assert (Hc1 : loop_cond tol patience s1 = false).
  { unfold loop_cond. apply andb_false_iff. left.
    rewrite Hdiff, Hmean. subst s0. cbn [l_L_mean_prev].
    change (nabs (nsub one one)) with (Fin (Qcabs (1 + - (1)))%Qc).
    replace (1 + - (1))%Qc with 0%Qc by ring.
    rewrite (Qcabs_pos 0%Qc) by apply Qcle_refl.
    unfold ngtb. apply Qcle_alt in Htol0.
    destruct (0 ?= tol)%Qc eqn:E; try reflexivity.
    exfalso. apply Htol0. exact E. }
  destruct fuel as [|fuel]; [lia|].
  exists (l_w s1), (snd (provider (l_w s0))). eexists.
  unfold quickprop_fuel. mstep. rewrite Hinit. mstep.
  cbn [while_loop]. rewrite Hc. mstep. rewrite Hrun. mstep.
  assert (Hstop : forall f tr, while_loop provider f lr tol patience s1 tr
                               = (inr (Some s1), tr)).
  { intros [|f] tr; cbn [while_loop]; rewrite Hc1; reflexivity. }
  rewrite Hstop. mstep. rewrite Hp. mstep.
  rewrite Hi1, HL1. reflexivity.
Qed.

End MoreProperties.

(** ** The further theorems at concrete inputs *)

Lemma one_nonzero : 1%Qc <> 0%Qc.
Proof. intros H. apply Qceq_alt in H. vm_compute in H. discriminate. Qed.

Lemma quickprop_step_consistent_shapes_witness :
  shape_preserving quad_provider
  /\ length [one] = length [zero]
  /\ length [zero] = length [zero]
  /\ exists new_w dw,
      quickprop_step quad_provider [zero] [one] [zero]
        qp_learning_rate_default gd_learning_rate_default []
      = (inr (new_w, dw, loss_of quad_provider [zero],
              gradient_of quad_provider [zero], snd (quad_provider [zero])),
         [] ++ [Ev_quickprop_step [zero] [one] [zero];
                Ev_calc_gradient [zero]])
      /\ length dw = length [zero]
      /\ length new_w = length [zero]
      /\ (forall k wk dk,
            nth_error [zero] k = Some wk -> nth_error dw k = Some dk ->
            nth_error new_w k = Some (nadd wk dk)).
Proof.
  split; [exact quad_provider_shape|].
  split; [reflexivity|]. split; [reflexivity|].
  apply (quickprop_step_consistent_shapes unit quad_provider
           quad_provider_shape [zero] [one] [zero]); reflexivity.
Defined.

Lemma quickprop_step_parabola_jump_witness :
  shape_preserving linear_provider
  /\ length [Fin half] = length [zero]
  /\ length [zero] = length [zero]
  /\ nth_error (gradient_of linear_provider [zero]) 0 = Some one
  /\ nth_error [zero] 0 = Some zero
  /\ nth_error [Fin half] 0 = Some (Fin half)
  /\ nceil (ndiv (nclip (nabs (nsub zero one)) zero one) two) = one
  /\ exists dw,
      returned_delta
        (fst (quickprop_step linear_provider [zero] [Fin half] [zero]
                qp_learning_rate_default gd_learning_rate_default []))
      = Some dw
      /\ nth_error dw 0
         = Some (clip_at_max_growth_at max_growth_factor_default
                   (cond_add_slope_at qp_learning_rate_default
                      (nmul one (ndiv (Fin half) (nsub zero one)))
                      (Fin half) one)
                   (Fin half)).
Proof.
  assert (Hd : nceil (ndiv (nclip (nabs (nsub zero one)) zero one) two) = one)
    by (apply num_eqb_eq; vm_compute; reflexivity).
  split; [exact linear_provider_shape|].
  do 5 (split; [reflexivity|]).
  split; [exact Hd|].
  apply (quickprop_step_parabola_jump unit linear_provider
           linear_provider_shape [zero] [Fin half] [zero]
           qp_learning_rate_default gd_learning_rate_default [] 0
           one zero (Fin half)); first [exact Hd | reflexivity].
Defined.

Lemma quickprop_step_nan_absorbing_witness :
  shape_preserving linear_provider
  /\ length [NaN] = length [zero]
  /\ length [zero] = length [zero]
  /\ nth_error [NaN] 0 = Some NaN
  /\ exists dw new_w,
      returned_delta
        (fst (quickprop_step linear_provider [zero] [NaN] [zero]
                qp_learning_rate_default gd_learning_rate_default []))
      = Some dw
      /\ returned_parameters
           (fst (quickprop_step linear_provider [zero] [NaN] [zero]
                   qp_learning_rate_default gd_learning_rate_default []))
         = Some new_w
      /\ nth_error dw 0 = Some NaN
      /\ nth_error new_w 0 = Some NaN.
Proof.
  split; [exact linear_provider_shape|].
  repeat (split; [reflexivity|]).
  apply (quickprop_step_nan_absorbing unit linear_provider
           linear_provider_shape [zero] [NaN] [zero]); reflexivity.
Defined.

Lemma clip_at_max_growth_cases_witness :
  length [Fin half] = length [one]
  /\ (0 <= max_growth_factor_default)%Qc
  /\ nth_error [one] 0 = Some (Fin 1%Qc)
  /\ nth_error [Fin half] 0 = Some (Fin half)
  /\ exists out r,
      clip_at_max_growth [one] [Fin half] max_growth_factor_default = inr out
      /\ length out = length [one]
      /\ nth_error out 0 = Some (Fin r)
      /\ ((Qcabs 1 <= max_growth_factor_default * Qcabs half)%Qc -> r = 1%Qc)
      /\ ((max_growth_factor_default * Qcabs half < 1)%Qc ->
          r = (max_growth_factor_default * Qcabs half)%Qc)
      /\ ((1 < - (max_growth_factor_default * Qcabs half))%Qc ->
          r = (- (max_growth_factor_default * Qcabs half))%Qc).
Proof.
  split; [reflexivity|].
  split; [exact max_growth_factor_default_nonneg|].
  split; [reflexivity|]. split; [reflexivity|].
  apply (clip_at_max_growth_cases [one] [Fin half] max_growth_factor_default
           0 1%Qc half); try reflexivity.
  exact max_growth_factor_default_nonneg.
Defined.

Lemma cond_add_slope_same_sign_witness :
  length [one] = length [one]
  /\ nth_error [one] 0 = Some (Fin 1%Qc)
  /\ 1%Qc <> 0%Qc
  /\ nsign (Fin 1%Qc) = nsign (Fin 1%Qc)
  /\ exists out,
      cond_add_slope [one] [one] [one] qp_learning_rate_default = inr out
      /\ length out = length [one]
      /\ nth_error out 0
         = Some (Fin (1 + - qp_learning_rate_default * 1)%Qc).
Proof.
  split; [reflexivity|]. split; [reflexivity|].
  split; [exact one_nonzero|]. split; [reflexivity|].
  apply (cond_add_slope_same_sign [one] [one] [one] qp_learning_rate_default
           0 1%Qc 1%Qc 1%Qc); try reflexivity.
  exact one_nonzero.
Defined.

Lemma quickprop_gradient_calls_witness :
  shape_preserving quad_provider
  /\ (Z.to_nat 3 <= 3)%nat
  /\ returned_iterations
       (fst (quickprop_fuel quad_provider 3 [zero] learning_rate_default
               tolerance_default 3 []))
     = Some 3%Z
  /\ count_gradient_calls
       (snd (quickprop_fuel quad_provider 3 [zero] learning_rate_default
               tolerance_default 3 []))
     = (count_gradient_calls [] + 1 + Z.to_nat 3)%nat.
Proof.
  split; [exact quad_provider_shape|].
  split; [simpl; lia|].
  split; [vm_compute; reflexivity|].
  apply (quickprop_gradient_calls unit quad_provider quad_provider_shape
           [zero] learning_rate_default tolerance_default 3 3 [] 3%Z).
  - simpl; lia.
  - vm_compute; reflexivity.
Defined.

Lemma quickprop_returns_witness :
  shape_preserving quad_provider
  /\ (tolerance_default < 1)%Qc
  /\ (0 < 3)%Z
  /\ (Z.to_nat 3 <= 3)%nat
  /\ exists w p i L t',
      quickprop_fuel quad_provider 3 [zero] learning_rate_default
        tolerance_default 3 []
      = (inr (Some (w, p, i, L)), t')
      /\ length w = length [zero]
      /\ (1 <= i <= 3)%Z.
Proof.
  split; [exact quad_provider_shape|].
  split; [reflexivity|]. split; [reflexivity|]. split; [simpl; lia|].
  apply (quickprop_returns unit quad_provider quad_provider_shape [zero]
           learning_rate_default tolerance_default 3 3 []);
    [reflexivity | reflexivity | simpl; lia].
Defined.


Lemma quickprop_stops_on_sentinel_loss_witness :
  shape_preserving flat_provider
  /\ (0 <= tolerance_default)%Qc
  /\ (tolerance_default < 1)%Qc
  /\ (0 < 3)%Z
  /\ (Z.to_nat 3 <= 3)%nat
  /\ loss_of flat_provider
       (map2 nadd [one]
          (map (nmul (Fin (- gd_learning_rate_default)%Qc))
             (gradient_of flat_provider [one])))
     = one
  /\ exists w p t',
      quickprop_fuel flat_provider 3 [one] learning_rate_default
        tolerance_default 3 []
      = (inr (Some (w, p, 1%Z, one)), t').
Proof.
  split; [exact flat_provider_shape|].
  split; [vm_compute; discriminate|].
  split; [reflexivity|]. split; [reflexivity|]. split; [simpl; lia|].
  split; [reflexivity|].
  apply (quickprop_stops_on_sentinel_loss unit flat_provider
           flat_provider_shape [one] learning_rate_default tolerance_default
           3 3 []);
    [vm_compute; discriminate | reflexivity | reflexivity | simpl; lia
    | reflexivity].
Defined.
